(** * Biological timer simulation: the Monte Carlo engine

    A shallow embedding of [run_biased_timer_simulation] as it appears in
    [Streamlit_Timer_App.py], [Streamlit_Timer_App_Clean.py],
    [Streamlit_Timer_App_Pretty.py] (weekly steps) and
    [Streamlit_Timer_App_MP4_Added4.py] (daily steps), and of the percentile
    report computed in [main].

    Python floats are IEEE 754 binary64 numbers: they are modelled by the
    Standard Library's [spec_float] at precision 53, with its correctly
    rounded operations.  Python integers are [Z].  The global generator
    behind [np.random.rand] is a fixed sequence of draws together with the
    number of draws consumed so far.  A computation returns a value or
    raises an exception; loops carry a step budget, and the properties
    show that the budget the model gives them is never exhausted. *)

From Stdlib Require Import ZArith Lia List Sorted Floats QArith Qround.
From stdpp Require Import base list.
Import ListNotations.
Local Open Scope Z_scope.

(** ** Python values and the operations the engine uses *)

Module Py.

Definition float64 : Type := spec_float.

Definition prec : Z := 53.
Definition emax : Z := 1024.

Definition fmul : float64 -> float64 -> float64 := SFmul prec emax.
Definition fsub : float64 -> float64 -> float64 := SFsub prec emax.
Definition fdiv : float64 -> float64 -> float64 := SFdiv prec emax.
(** [x < y] and [x >= y]; both are [False] when an operand is a NaN. *)
Definition flt (x y : float64) : bool := SFltb x y.
Definition fge (x y : float64) : bool := SFleb y x.

(** Conversion of an [int] operand of a float operation: round to
    nearest, ties to even.  (CPython raises [OverflowError] above the
    largest float, where this gives an infinity; no list is that long.) *)
Definition float_of_int (z : Z) : float64 := binary_normalize prec emax z 0 false.

(** [a / b] for two [int]s: the quotient as a float.  CPython rounds the
    exact quotient once; for operands below 2^53, which convert exactly,
    that is the IEEE division of the converted operands written here. *)
Definition int_truediv (a b : Z) : float64 := fdiv (float_of_int a) (float_of_int b).

(** The literals [0.1] and [1.0] as the parser reads them. *)
Definition lit_0_1 : float64 := Eval vm_compute in Prim2SF 0x1.999999999999ap-4%float.
Definition lit_1_0 : float64 := Eval vm_compute in Prim2SF 1%float.

Inductive exn : Type := ValueError | IndexError | OverflowError.

(** Outcome of a computation: a value, a raised exception, or the step
    budget of the model exhausted (shown below never to happen). *)
Inductive result (A : Type) : Type :=
| Ok (a : A)
| Raise (e : exn)
| OutOfFuel.
Arguments Ok {A} a.
Arguments Raise {A} e.
Arguments OutOfFuel {A}.

Definition bind {A B : Type} (r : result A) (k : A -> result B) : result B :=
  match r with
  | Ok a => k a
  | Raise e => Raise e
  | OutOfFuel => OutOfFuel
  end.

(** [enumerate(l)], counting from [start]. *)
Fixpoint enumerate_from {A : Type} (start : nat) (l : list A) : list (nat * A) :=
  match l with
  | [] => []
  | x :: l' => (start, x) :: enumerate_from (S start) l'
  end.
Definition enumerate {A : Type} (l : list A) : list (nat * A) := enumerate_from 0 l.

(** [all(l)] on a list of booleans. *)
Definition all (l : list bool) : bool := forallb (fun b => b) l.

(** [range(n)]: empty when [n <= 0]. *)
Definition range (n : Z) : list nat := seq 0 (Z.to_nat n).

(** [l[i]] and [l[i] = x] for a non-negative index. *)
Definition getitem {A : Type} (l : list A) (i : nat) : result A :=
  match l !! i with
  | Some x => Ok x
  | None => Raise IndexError
  end.
Definition setitem {A : Type} (l : list A) (i : nat) (x : A) : result (list A) :=
  if (i <? length l)%nat then Ok (<[i := x]> l) else Raise IndexError.

(** [math.ceil(x)]: the least integer not below [x]; [OverflowError] on an
    infinity and [ValueError] on a NaN. *)
Definition math_ceil (x : float64) : result Z :=
  match x with
  | S754_zero _ => Ok 0
  | S754_finite s m e =>
      let n := if s then Z.neg m else Z.pos m in
      Ok (if 0 <=? e then n * 2 ^ e else - ((- n) / 2 ^ (- e)))
  | S754_infinity _ => Raise OverflowError
  | S754_nan => Raise ValueError
  end.

End Py.
Import Py.

#[global] Instance result_bind : MBind result := fun A B k r => bind r k.
#[global] Instance result_ret : MRet result := fun A a => Ok a.

(** ** The random source

    [rand k] is the value the [k]-th call of [np.random.rand()] returns; the
    generator's state is the number [cursor] of calls made so far. *)

Definition stream : Type := nat -> float64.

(** ** The step loop shared by the four files *)

Section Engine.

Variable rand : stream.
(** How a file turns a base probability and a penalty into the probability
    of the Bernoulli draw. *)
Variable effective : float64 -> float64 -> float64.
Variable prob_list : list float64.

(** Local state of a trial, with the generator's position. *)
Record state : Type := { occurred : list bool; cursor : nat }.

(** [[i for i, occ in enumerate(occurred) if not occ]] *)
Definition unoccurred_indices (occ : list bool) : list nat :=
  map fst (List.filter (fun p => negb (snd p)) (enumerate occ)).

(** [penalty_fraction = 0.1 * rank] *)
Definition penalty_fraction (rank : nat) : float64 :=
  fmul lit_0_1 (float_of_int (Z.of_nat rank)).

(** [if penalty_fraction >= 1.0: continue] *)
Definition full_penalty (rank : nat) : bool := fge (penalty_fraction rank) lit_1_0.

(** Body of [for rank, event_index in enumerate(unoccurred_indices)]. *)
Definition attempt (st : state) (rank event_index : nat) : result state :=
  if full_penalty rank then Ok st
  else
    base_p ← getitem prob_list event_index;
    let effective_p := effective base_p (penalty_fraction rank) in
    let u := rand (cursor st) in
    let c := S (cursor st) in
    if flt u effective_p then
      occ ← setitem (occurred st) event_index true;
      Ok {| occurred := occ; cursor := c |}
    else Ok {| occurred := occurred st; cursor := c |}.

Fixpoint for_loop (items : list (nat * nat)) (st : state) : result state :=
  match items with
  | [] => Ok st
  | (rank, event_index) :: rest =>
      st' ← attempt st rank event_index; for_loop rest st'
  end.

(** One pass of the [while] body after [week += 1], when some event is
    still unoccurred: the snapshot is taken, then the draws are made. *)
Definition step (st : state) : result state :=
  for_loop (enumerate (unoccurred_indices (occurred st))) st.

(** The rank an event of index [i] has in a snapshot of the flags [occ]:
    the number of unoccurred events to its left. *)
Definition start_rank (occ : list bool) (i : nat) : nat :=
  length (unoccurred_indices (take i occ)).

(** Whether the event [event_index] fires when it is tried at rank [rank]
    in a step that finds the generator at position [c]: the penalty is
    not full and the draw number [c + rank] is below the effective
    probability. *)
Definition fires (c rank event_index : nat) : bool :=
  match prob_list !! event_index with
  | Some base_p =>
      negb (full_penalty rank)
      && flt (rand (c + rank)%nat) (effective base_p (penalty_fraction rank))
  | None => false
  end.

(** [while week < limit: week += 1; ...]; returns the counter and the
    state the loop is left with. *)
Fixpoint while_loop (fuel : nat) (limit week : Z) (st : state) : result (Z * state) :=
  if week <? limit then
    match fuel with
    | O => OutOfFuel
    | S fuel' =>
        let week := week + 1 in
        match unoccurred_indices (occurred st) with
        | [] => Ok (week, st)
        | _ :: _ =>
            st' ← step st;
            if all (occurred st') then Ok (week, st')
            else while_loop fuel' limit week st'
        end
    end
  else Ok (week, st).

(** One trial: [occurred = [False] * n], counter [0], then the loop. *)
Definition trial (limit : Z) (c : nat) : result (Z * state) :=
  while_loop (Z.to_nat limit) limit 0
    {| occurred := replicate (length prob_list) false; cursor := c |}.

(** Position of the generator after [k] trials run one after the other
    from position [c]. *)
Fixpoint cursor_after (limit : Z) (c : nat) (k : nat) : nat :=
  match k with
  | O => c
  | S k' =>
      match trial limit c with
      | Ok r => cursor_after limit (cursor (snd r)) k'
      | _ => c
      end
  end.

(** [for trial in range(num_samples): ...; all_T[trial] = report(counter)],
    where [report] is what the file stores for a counter: the counter
    itself, or a number of weeks computed from it. *)
Variable report : Z -> result Z.

Fixpoint trials_loop (limit : Z) (ixs : list nat) (all_T : list Z) (c : nat)
  : result (list Z * nat) :=
  match ixs with
  | [] => Ok (all_T, c)
  | i :: rest =>
      r ← trial limit c;
      v ← report (fst r);
      all_T' ← setitem all_T i v;
      trials_loop limit rest all_T' (cursor (snd r))
  end.

(** [all_T = np.zeros(num_samples, dtype=int)] raises [ValueError] on a
    negative size; then the trials run in order.  The result carries the
    generator's final position. *)
Definition batch (limit num_samples : Z) (c : nat) : result (list Z * nat) :=
  if num_samples <? 0 then Raise ValueError
  else trials_loop limit (range num_samples) (replicate (Z.to_nat num_samples) 0) c.

End Engine.

(** ** Weekly resolution
    [Streamlit_Timer_App.py], [Streamlit_Timer_App_Clean.py] and
    [Streamlit_Timer_App_Pretty.py]: the three functions differ in names and
    comments only. *)

Module Weekly.

(** [effective_p = base_p * (1.0 - penalty_fraction)] *)
Definition effective_p (base_p penalty : float64) : float64 :=
  fmul base_p (fsub lit_1_0 penalty).

(** One pass of the [for trial] body up to [all_T[trial] = week]. *)
Definition trial (rand : stream) (prob_list : list float64) (max_weeks : Z) (c : nat)
  : result (Z * state) :=
  trial rand effective_p prob_list max_weeks c.

(** The result array, with the generator's position after the run. *)
Definition run_biased_timer_simulation (rand : stream) (c : nat)
    (prob_list : list float64) (num_samples max_weeks : Z) : result (list Z * nat) :=
  batch rand effective_p prob_list (fun week => Ok week) max_weeks num_samples c.

End Weekly.

(** ** Daily resolution
    [Streamlit_Timer_App_MP4_Added4.py].  The power [x ** y] of two floats is
    the C library's [pow], which IEEE 754 does not specify: it is a parameter. *)

Module Daily.

Section Pow.

Variable fpow : float64 -> float64 -> float64.

(** [base_daily = 1 - (1 - base_weekly)**(1/7)] *)
Definition base_daily (base_weekly : float64) : float64 :=
  fsub (float_of_int 1)
       (fpow (fsub (float_of_int 1) base_weekly)
             (int_truediv 1 7)).

(** [effective_daily = base_daily * (1 - penalty_fraction)] *)
Definition effective_daily (base_weekly penalty : float64) : float64 :=
  fmul (base_daily base_weekly) (fsub (float_of_int 1) penalty).

(** [max_days = max_weeks * 7] *)
Definition max_days (max_weeks : Z) : Z := max_weeks * 7.

(** [weeks = math.ceil(day / 7)] *)
Definition weeks (day : Z) : result Z := math_ceil (int_truediv day 7).

Definition trial (rand : stream) (prob_list : list float64) (max_weeks : Z) (c : nat)
  : result (Z * state) :=
  trial rand effective_daily prob_list (max_days max_weeks) c.

Definition run_biased_timer_simulation (rand : stream) (c : nat)
    (prob_list : list float64) (num_samples max_weeks : Z) : result (list Z * nat) :=
  batch rand effective_daily prob_list weeks (max_days max_weeks) num_samples c.

End Pow.

End Daily.

(** ** The percentile report of [main]
    ([Streamlit_Timer_App_Pretty.py], [Streamlit_Timer_App_MP4_Added4.py]) *)

Module Report.

Fixpoint insert_sorted (x : Z) (l : list Z) : list Z :=
  match l with
  | [] => [x]
  | y :: l' => if x <=? y then x :: l else y :: insert_sorted x l'
  end.

Definition sort (l : list Z) : list Z := fold_right insert_sorted [] l.

(** [np.percentile(a, q)] with numpy's default method: on the sorted data
    the virtual index is [(n - 1) * q / 100]; the result interpolates
    linearly between the two neighbouring order statistics.  For integer
    data and [q] in 25, 50, 75 every intermediate value is a multiple of
    1/4, which binary64 represents exactly, so the result is given as a
    rational.  On an empty array numpy returns a NaN. *)
Definition np_percentile (a : list Z) (q : Z) : option Q :=
  let s := sort a in
  let n := Z.of_nat (length s) in
  let pos := (n - 1) * q in
  let i := Z.to_nat (pos / 100) in
  match s !! i with
  | None => None
  | Some lo =>
      let hi := default lo (s !! S i) in
      Some (inject_Z lo + (inject_Z (hi - lo) * ((pos mod 100) # 100)))%Q
  end.

(** [int(x)] for a float: truncation toward zero; [ValueError] on a NaN. *)
Definition py_int (x : option Q) : result Z :=
  match x with
  | None => Raise ValueError
  | Some v => Ok (Z.quot (Qnum v) (Z.pos (Qden v)))
  end.

(** [week_q = int(np.percentile(all_T, q))] *)
Definition week_percentile (all_T : list Z) (q : Z) : result Z :=
  py_int (np_percentile all_T q).

(** The three numbers [main] writes out. *)
Definition summary (all_T : list Z) : result (Z * Z * Z) :=
  week_25 ← week_percentile all_T 25;
  week_50 ← week_percentile all_T 50;
  week_75 ← week_percentile all_T 75;
  Ok (week_25, week_50, week_75).

End Report.

(** ** Words of the specification, and inputs used in examples *)


(** The ceiling of the exact quotient [a / b]. *)
Definition ceil_div (a b : Z) : Z := - ((- a) / b).


(** A stream that repeats one value, and one that starts with given values. *)
Definition const_stream (x : float64) : stream := fun _ => x.
Definition list_stream (l : list float64) (d : float64) : stream := fun k => nth k l d.

(** The generator seen from position [c] on. *)
Definition shift (rand : stream) (c : nat) : stream := fun k => rand (c + k)%nat.

(** A state and a result seen with the generator's positions counted from
    [d] on. *)
Definition shift_state (d : nat) (st : state) : state :=
  {| occurred := occurred st; cursor := d + cursor st |}.

Definition result_map {A B : Type} (f : A -> B) (r : result A) : result B :=
  match r with
  | Ok a => Ok (f a)
  | Raise e => Raise e
  | OutOfFuel => OutOfFuel
  end.

(** The snapshot of [occ] when its first flag has index [k]. *)
Definition unocc_from (k : nat) (occ : list bool) : list nat :=
  map fst (List.filter (fun p : nat * bool => negb (snd p)) (enumerate_from k occ)).

(** The floats [0.21], [0.5], [0.2] and [0.001]. *)
Definition lit_0_21 : float64 := Eval vm_compute in Prim2SF 0x1.ae147ae147ae1p-3%float.
Definition lit_0_5 : float64 := Eval vm_compute in Prim2SF 0x1p-1%float.
Definition lit_0_2 : float64 := Eval vm_compute in Prim2SF 0x1.999999999999ap-3%float.
Definition lit_0_001 : float64 := Eval vm_compute in Prim2SF 0x1.0624dd2f1a9fcp-10%float.

(** A stand-in for the C library's [pow], for evaluating the daily variant
    on examples (no result below depends on it). *)
Definition pow_stub (x y : float64) : float64 := x.


(** ** What [main] computes from a run
    (the calls that draw the page are left out) *)

Module Main.

(** [np.max(a)]: [ValueError] on an empty array. *)
Definition np_max (a : list Z) : result Z :=
  match a with
  | [] => Raise ValueError
  | x :: l => Ok (fold_left Z.max l x)
  end.

(** [range(start, stop)] as the list of its elements. *)
Definition range_from (start stop : Z) : list Z :=
  map (fun k => start + Z.of_nat k) (seq 0 (Z.to_nat (stop - start))).

(** [bins = range(1, np.max(all_T) + 2)]: the edges of the histogram. *)
Definition bins (all_T : list Z) : result (list Z) :=
  m ← np_max all_T;
  Ok (range_from 1 (m + 2)).

(** [Streamlit_Timer_App_Pretty.py]: the run, then the three statistics. *)
Definition weekly_statistics (rand : stream) (c : nat) (prob_list : list float64)
    (num_samples max_weeks : Z) : result (Z * Z * Z) :=
  r ← Weekly.run_biased_timer_simulation rand c prob_list num_samples max_weeks;
  Report.summary (fst r).


(** The histogram edges of a weekly run
    ([Streamlit_Timer_App.py], [Streamlit_Timer_App_Clean.py]). *)
Definition weekly_bins (rand : stream) (c : nat) (prob_list : list float64)
    (num_samples max_weeks : Z) : result (list Z) :=
  r ← Weekly.run_biased_timer_simulation rand c prob_list num_samples max_weeks;
  bins (fst r).

End Main.

(** * Properties

    ** Binary64: the test [0.1 * rank >= 1.0]

    The product [0.1 * rank] is rounded; the lemmas below follow the
    rounding of [SpecFloat] to show that the test holds exactly from rank
    ten on, for every rank and not only for those a run can reach. *)

Lemma digits2_pos_size (p : positive) : digits2_pos p = Pos.size p.
Proof. induction p; simpl; congruence. Qed.

Lemma digits2_pos_bounds (p : positive) :
  2 ^ (Z.pos (digits2_pos p) - 1) <= Z.pos p < 2 ^ Z.pos (digits2_pos p).
Proof.
  induction p as [p IH | p IH |]; cbn [digits2_pos].
  - rewrite Pos2Z.inj_succ. change (Z.pos p~1) with (2 * Z.pos p + 1).
    replace (Z.succ (Z.pos (digits2_pos p)) - 1) with (Z.succ (Z.pos (digits2_pos p) - 1)) by lia.
    rewrite !Z.pow_succ_r by lia. lia.
  - rewrite Pos2Z.inj_succ. change (Z.pos p~0) with (2 * Z.pos p).
    replace (Z.succ (Z.pos (digits2_pos p)) - 1) with (Z.succ (Z.pos (digits2_pos p) - 1)) by lia.
    rewrite !Z.pow_succ_r by lia. lia.
  - simpl. lia.
Qed.

Lemma digits2_pos_unique (p : positive) (k : Z) :
  2 ^ (k - 1) <= Z.pos p < 2 ^ k -> Z.pos (digits2_pos p) = k.
Proof.
  intros [Hlo Hhi]. pose proof (digits2_pos_bounds p) as [Dlo Dhi].
  assert (Hk : 0 < k).
  { destruct (Z.le_gt_cases k 0) as [Hk|Hk]; [|lia].
    assert (2 ^ k <= 2 ^ 0) by (apply Z.pow_le_mono_r; lia). simpl in *. lia. }
  destruct (Z.lt_trichotomy (Z.pos (digits2_pos p)) k) as [H|[H|H]]; [|exact H|].
  - assert (2 ^ Z.pos (digits2_pos p) <= 2 ^ (k - 1)) by (apply Z.pow_le_mono_r; lia). lia.
  - assert (2 ^ k <= 2 ^ (Z.pos (digits2_pos p) - 1)) by (apply Z.pow_le_mono_r; lia). lia.
Qed.

Lemma shr_1_m (mrs : shr_record) : 0 <= shr_m mrs -> shr_m (shr_1 mrs) = shr_m mrs / 2.
Proof.
  destruct mrs as [m r s]. simpl. intros Hm.
  destruct m as [|p|p]; [reflexivity| |lia].
  destruct p as [p|p|]; simpl shr_m.
  - change (Z.pos p~1) with (2 * Z.pos p + 1). apply Z.div_unique with (r := 1); lia.
  - change (Z.pos p~0) with (2 * Z.pos p). apply Z.div_unique with (r := 0); lia.
  - reflexivity.
Qed.

Lemma iter_shr_1_m (n : positive) (mrs : shr_record) :
  0 <= shr_m mrs -> shr_m (SpecFloat.iter_pos shr_1 n mrs) = shr_m mrs / 2 ^ Z.pos n.
Proof.
  revert mrs. induction n as [n IH | n IH |]; intros mrs Hm; cbn [SpecFloat.iter_pos].
  - assert (H1 : 0 <= shr_m (shr_1 mrs)) by (rewrite shr_1_m by lia; apply Z.div_pos; lia).
    assert (H2 : 0 <= shr_m (SpecFloat.iter_pos shr_1 n (shr_1 mrs))).
    { rewrite IH by lia. apply Z.div_pos; lia. }
    rewrite IH, IH, shr_1_m by lia.
    rewrite !Z.div_div by lia. f_equal.
    change (Z.pos n~1) with (2 * Z.pos n + 1). rewrite Z.pow_add_r, Z.pow_mul_r by lia.
    change (2 ^ 2) with 4. change (2 ^ 1) with 2.
    replace 4 with (2 * 2) by lia. rewrite Z.pow_mul_l. lia.
  - assert (H2 : 0 <= shr_m (SpecFloat.iter_pos shr_1 n mrs)).
    { rewrite IH by lia. apply Z.div_pos; lia. }
    rewrite IH, IH by lia.
    rewrite !Z.div_div by lia. f_equal.
    change (Z.pos n~0) with (2 * Z.pos n). rewrite Z.pow_mul_r by lia.
    change (2 ^ 2) with (2 * 2). rewrite Z.pow_mul_l. lia.
  - rewrite shr_1_m by lia. reflexivity.
Qed.

Lemma round_nearest_even_bounds (m : Z) (l : location) :
  m <= round_nearest_even m l <= m + 1.
Proof. destruct l as [|[]]; simpl; try lia. destruct (Z.even m); lia. Qed.

Lemma shr_fexp_shift (P : positive) (E : Z) (l : location) :
  53 < Z.pos (digits2_pos P) ->
  -1074 <= Z.pos (digits2_pos P) + E - 53 ->
  exists mrs,
    shr_fexp prec emax (Z.pos P) E l = (mrs, Z.pos (digits2_pos P) + E - 53) /\
    shr_m mrs = Z.pos P / 2 ^ (Z.pos (digits2_pos P) - 53).
Proof.
  intros Hd He. unfold shr_fexp, fexp, SpecFloat.emin, prec, emax. cbn [Zdigits2].
  rewrite Z.max_l by lia.
  remember (Z.pos (digits2_pos P) + E - 53 - E) as n eqn:Hn.
  destruct n as [|n|n]; try lia.
  unfold shr. eexists. split.
  - f_equal. lia.
  - rewrite iter_shr_1_m by (destruct l as [|[]]; simpl; lia).
    replace (Z.pos (digits2_pos P) - 53) with (Z.pos n) by lia.
    destruct l as [|[]]; reflexivity.
Qed.

Lemma shr_fexp_keep (m : positive) (E : Z) :
  Z.pos (digits2_pos m) = 53 -> -1074 <= E ->
  shr_fexp prec emax (Z.pos m) E loc_Exact = (Build_shr_record (Z.pos m) false false, E).
Proof.
  intros Hd He. unfold shr_fexp, fexp, SpecFloat.emin, prec, emax. cbn [Zdigits2].
  rewrite Hd. replace (Z.max (53 + E - 53) (3 - 1024 - 53) - E) with 0 by lia.
  reflexivity.
Qed.

Lemma shr_fexp_top (E : Z) :
  -1074 <= E ->
  shr_fexp prec emax 9007199254740992 E loc_Exact =
  (Build_shr_record 4503599627370496 false false, E + 1).
Proof.
  intros He. unfold shr_fexp, fexp, SpecFloat.emin, prec, emax.
  change (Zdigits2 9007199254740992) with 54.
  replace (Z.max (54 + E - 53) (3 - 1024 - 53) - E) with 1 by lia.
  reflexivity.
Qed.

Lemma pow2_53 : 2 ^ 53 = 9007199254740992. Proof. reflexivity. Qed.
Lemma pow2_52 : 2 ^ 52 = 4503599627370496. Proof. reflexivity. Qed.

(** Rounding a product or an integer with more than 53 digits: the result
    is normal and keeps at least the exponent of the truncated mantissa. *)
Lemma binary_round_aux_normal (P : positive) (E : Z) :
  53 < Z.pos (digits2_pos P) ->
  -1074 <= Z.pos (digits2_pos P) + E - 53 ->
  binary_round_aux prec emax false (Z.pos P) E loc_Exact = S754_infinity false \/
  exists m e,
    binary_round_aux prec emax false (Z.pos P) E loc_Exact = S754_finite false m e /\
    Z.pos (digits2_pos m) = 53 /\ Z.pos (digits2_pos P) + E - 53 <= e.
Proof.
  intros Hd He. unfold binary_round_aux.
  destruct (shr_fexp_shift P E loc_Exact Hd He) as (mrs & -> & Hm).
  set (d := Z.pos (digits2_pos P)) in *.
  pose proof (digits2_pos_bounds P) as [Plo Phi]. fold d in Plo, Phi.
  assert (Hm1 : 2 ^ 52 <= shr_m mrs < 2 ^ 53).
  { rewrite Hm. split.
    - apply Z.div_le_lower_bound; [lia|].
      rewrite <- Z.pow_add_r by lia. replace (d - 53 + 52) with (d - 1) by lia. exact Plo.
    - apply Z.div_lt_upper_bound; [lia|].
      rewrite <- Z.pow_add_r by lia. replace (d - 53 + 53) with d by lia. exact Phi. }
  pose proof (round_nearest_even_bounds (shr_m mrs) (loc_of_shr_record mrs)) as Hr.
  set (m2 := round_nearest_even (shr_m mrs) (loc_of_shr_record mrs)) in *.
  destruct (Z.eq_dec m2 (2 ^ 53)) as [Htop|Htop].
  - rewrite Htop. rewrite pow2_53.
    rewrite shr_fexp_top by lia. cbn [shr_m].
    destruct (d + E - 53 + 1 <=? emax - prec); [right|left; reflexivity].
    eexists _, _. split; [reflexivity|]. split; [reflexivity|lia].
  - destruct m2 as [|m2|m2]; try lia.
    assert (Hd2 : Z.pos (digits2_pos m2) = 53) by (apply digits2_pos_unique; lia).
    rewrite shr_fexp_keep by lia. cbn [shr_m].
    destruct (d + E - 53 <=? emax - prec); [right|left; reflexivity].
    eexists _, _. split; [reflexivity|]. split; [exact Hd2|lia].
Qed.

Lemma binary_round_aux_exact (m : positive) (E : Z) :
  Z.pos (digits2_pos m) = 53 -> -1074 <= E ->
  binary_round_aux prec emax false (Z.pos m) E loc_Exact =
  if E <=? emax - prec then S754_finite false m E else S754_infinity false.
Proof.
  intros Hd He. unfold binary_round_aux.
  rewrite shr_fexp_keep by assumption. cbn [shr_m loc_of_shr_record round_nearest_even].
  rewrite shr_fexp_keep by assumption. reflexivity.
Qed.

Lemma iter_xO_pos (p k : positive) : Z.pos (Pos.iter xO p k) = Z.pos p * 2 ^ Z.pos k.
Proof.
  change (Pos.iter xO p k) with (shift_pos k p).
  rewrite shift_pos_correct. change (Z.pow_pos 2 k) with (2 ^ Z.pos k). lia.
Qed.

(** An integer of at most 53 digits converts exactly. *)
Lemma float_of_int_small (p : positive) :
  Z.pos (digits2_pos p) <= 53 ->
  exists m,
    float_of_int (Z.pos p) = S754_finite false m (Z.pos (digits2_pos p) - 53) /\
    Z.pos (digits2_pos m) = 53 /\
    Z.pos m = Z.pos p * 2 ^ (53 - Z.pos (digits2_pos p)).
Proof.
  intros Hd. unfold float_of_int, binary_normalize, binary_round.
  pose proof (digits2_pos_bounds p) as [Plo Phi].
  set (d := Z.pos (digits2_pos p)) in *.
  assert (Hf : fexp prec emax (d + 0) = d - 53)
    by (unfold fexp, SpecFloat.emin, prec, emax; lia).
  rewrite Hf. unfold shl_align.
  remember (d - 53 - 0) as k eqn:Hk. destruct k as [|k|k]; try lia.
  - exists p. replace (d - 53) with 0 by lia.
    rewrite binary_round_aux_exact by (fold d; lia).
    split; [reflexivity|]. split; [fold d; lia|].
    replace (53 - d) with 0 by lia. lia.
  - exists (Pos.iter xO p k).
    assert (Hv : Z.pos (Pos.iter xO p k) = Z.pos p * 2 ^ (53 - d)).
    { rewrite iter_xO_pos. f_equal. f_equal. lia. }
    assert (Hd' : Z.pos (digits2_pos (Pos.iter xO p k)) = 53).
    { apply digits2_pos_unique. rewrite Hv. split.
      - replace (53 - 1) with ((d - 1) + (53 - d)) by lia.
        rewrite Z.pow_add_r by lia. apply Z.mul_le_mono_nonneg_r; lia.
      - replace 53 with (d + (53 - d)) at 2 by lia.
        rewrite Z.pow_add_r by lia. apply Z.mul_lt_mono_pos_r; lia. }
    rewrite binary_round_aux_exact by lia.
    replace (d - 53 <=? emax - prec) with true
      by (symmetry; apply Z.leb_le; unfold emax, prec; lia).
    auto.
Qed.

(** A longer integer rounds to a normal float of positive exponent, or
    overflows. *)
Lemma float_of_int_large (p : positive) :
  53 < Z.pos (digits2_pos p) ->
  float_of_int (Z.pos p) = S754_infinity false \/
  exists m e,
    float_of_int (Z.pos p) = S754_finite false m e /\
    Z.pos (digits2_pos m) = 53 /\ 1 <= e.
Proof.
  intros Hd. unfold float_of_int, binary_normalize, binary_round.
  set (d := Z.pos (digits2_pos p)) in *.
  assert (Hf : fexp prec emax (d + 0) = d - 53)
    by (unfold fexp, SpecFloat.emin, prec, emax; lia).
  rewrite Hf. unfold shl_align.
  remember (d - 53 - 0) as k eqn:Hk. destruct k as [|k|k]; try lia.
  destruct (binary_round_aux_normal p 0) as [H|(m & e & H & Hm & He)];
    fold d; try lia; [left; exact H|right].
  exists m, e. fold d in He. split; [exact H|]. split; [exact Hm|lia].
Qed.

Lemma one_le_normal (m : positive) (e : Z) :
  Z.pos (digits2_pos m) = 53 -> -52 <= e ->
  fge (S754_finite false m e) lit_1_0 = true.
Proof.
  intros Hd He. unfold fge, SFleb, SFcompare, lit_1_0.
  pose proof (digits2_pos_bounds m) as [Mlo _]. rewrite Hd in Mlo.
  change (2 ^ (53 - 1)) with 4503599627370496 in Mlo.
  destruct (Z.compare_spec (-52) e) as [H|H|H].
  - change (Pos.compare_cont Eq 4503599627370496 m) with (4503599627370496 ?= m)%positive.
    destruct (Pos.compare_spec 4503599627370496 m) as [H'|H'|H'].
    + reflexivity.
    + reflexivity.
    + exfalso. apply Pos2Z.pos_lt_pos in H'. clear - H' Mlo. lia.
  - reflexivity.
  - exfalso. lia.
Qed.

(** [0.1 * x >= 1.0] for every normal float [x] that is at least ten. *)
Lemma tenth_of_ten_or_more (m : positive) (e : Z) :
  Z.pos (digits2_pos m) = 53 ->
  -48 <= e \/ (e = -49 /\ 5629499534213120 <= Z.pos m) ->
  fge (fmul lit_0_1 (S754_finite false m e)) lit_1_0 = true.
Proof.
  intros Hd Hv. unfold fmul, lit_0_1, SFmul. cbn [xorb].
  pose proof (digits2_pos_bounds m) as [Mlo _]. rewrite Hd in Mlo.
  change (2 ^ (53 - 1)) with 4503599627370496 in Mlo.
  assert (HP : Z.pos (7205759403792794 * m) = 7205759403792794 * Z.pos m)
    by apply Pos2Z.inj_mul.
  remember (7205759403792794 * m)%positive as P eqn:EP. clear EP.
  pose proof (digits2_pos_bounds P) as [_ Phi].
  assert (Hd104 : 104 < Z.pos (digits2_pos P)).
  { apply (Z.pow_lt_mono_r_iff 2); [lia|lia|].
    change (2 ^ 104) with 20282409603651670423947251286016.
    clear - Phi HP Mlo. lia. }
  assert (Hexp : -52 <= Z.pos (digits2_pos P) + (-56 + e) - 53).
  { destruct Hv as [Hv|[-> Hm]]; [clear - Hv Hd104; lia|].
    assert (105 < Z.pos (digits2_pos P)); [|lia].
    apply (Z.pow_lt_mono_r_iff 2); [lia|lia|].
    change (2 ^ 105) with 40564819207303340847894502572032.
    clear - Phi HP Hm. lia. }
  destruct (binary_round_aux_normal P (-56 + e)) as [H|(m' & e' & H & Hm' & He')];
    [lia|lia| |]; rewrite H.
  - reflexivity.
  - apply one_le_normal; [exact Hm'|lia].
Qed.

Lemma full_penalty_from_ten (rank : nat) : (10 <= rank)%nat -> full_penalty rank = true.
Proof.
  intros Hr. unfold full_penalty, penalty_fraction.
  destruct (Z.of_nat rank) as [|p|p] eqn:Hp; try lia.
  assert (Hp10 : 10 <= Z.pos p) by lia. clear Hp Hr.
  pose proof (digits2_pos_bounds p) as [Plo Phi].
  assert (Hd4 : 4 <= Z.pos (digits2_pos p)).
  { assert (3 < Z.pos (digits2_pos p)); [|lia].
    apply (Z.pow_lt_mono_r_iff 2); [lia|lia|]. change (2 ^ 3) with 8. lia. }
  destruct (Z_le_gt_dec (Z.pos (digits2_pos p)) 53) as [Hs|Hl].
  - destruct (float_of_int_small p Hs) as (m & -> & Hm & Hv).
    apply tenth_of_ten_or_more; [exact Hm|].
    destruct (Z.eq_dec (Z.pos (digits2_pos p)) 4) as [H4|H4]; [right|left; lia].
    rewrite H4 in *. split; [reflexivity|]. rewrite Hv.
    change (2 ^ (53 - 4)) with 562949953421312. clear - Hp10. lia.
  - destruct (float_of_int_large p) as [->|(m & e & -> & Hm & He)]; [lia|reflexivity|].
    apply tenth_of_ten_or_more; [exact Hm|lia].
Qed.

Lemma full_penalty_below_ten (rank : nat) : (rank < 10)%nat -> full_penalty rank = false.
Proof.
  intros Hr. do 10 (destruct rank as [|rank]; [vm_compute; reflexivity|]). lia.
Qed.

Lemma full_penalty_iff (rank : nat) : full_penalty rank = (10 <=? rank)%nat.
Proof.
  destruct (Nat.leb_spec 10 rank) as [H|H].
  - apply full_penalty_from_ten, H.
  - apply full_penalty_below_ten, H.
Qed.

(** ** Binary64: [math.ceil(day / 7)] *)

Lemma loc_of_shr_record_of_loc (m : Z) (l : location) :
  loc_of_shr_record (shr_record_of_loc m l) = l.
Proof. destruct l as [|[]]; reflexivity. Qed.

Lemma shr_m_of_loc (m : Z) (l : location) : shr_m (shr_record_of_loc m l) = m.
Proof. destruct l as [|[]]; reflexivity. Qed.

Lemma shr_fexp_keep_loc (m : positive) (E : Z) (l : location) :
  Z.pos (digits2_pos m) = 53 -> -1074 <= E ->
  shr_fexp prec emax (Z.pos m) E l = (shr_record_of_loc (Z.pos m) l, E).
Proof.
  intros Hd He. unfold shr_fexp, fexp, SpecFloat.emin, prec, emax. cbn [Zdigits2].
  rewrite Hd. replace (Z.max (53 + E - 53) (3 - 1024 - 53) - E) with 0 by lia.
  reflexivity.
Qed.

Lemma shr_fexp_one (m : positive) (E : Z) (l : location) :
  Z.pos (digits2_pos m) = 54 -> -1075 <= E ->
  shr_fexp prec emax (Z.pos m) E l = (shr_1 (shr_record_of_loc (Z.pos m) l), E + 1).
Proof.
  intros Hd He. unfold shr_fexp, fexp, SpecFloat.emin, prec, emax. cbn [Zdigits2].
  rewrite Hd. replace (Z.max (54 + E - 53) (3 - 1024 - 53) - E) with 1 by lia.
  reflexivity.
Qed.

(** The second half of [binary_round_aux]: a rounded mantissa between
    2^52 and 2^53 is kept, the top one being renormalised. *)
Lemma renormalise (q2 E : Z) :
  4503599627370496 <= q2 <= 9007199254740992 -> -1074 <= E < 970 ->
  exists m e,
    (let '(mrs, e'') := shr_fexp prec emax q2 E loc_Exact in
     match shr_m mrs with
     | 0 => S754_zero false
     | Z.pos m => if e'' <=? emax - prec then S754_finite false m e'' else S754_infinity false
     | Z.neg _ => S754_nan
     end) = S754_finite false m e /\
    E <= e <= E + 1 /\ Z.pos m * 2 ^ (e - E) = q2.
Proof.
  intros Hq He. destruct (Z.eq_dec q2 9007199254740992) as [->|Htop].
  - rewrite shr_fexp_top by lia. cbn [shr_m].
    replace (E + 1 <=? emax - prec) with true
      by (symmetry; apply Z.leb_le; unfold emax, prec; lia).
    eexists _, _. split; [reflexivity|]. split; [lia|].
    replace (E + 1 - E) with 1 by lia. reflexivity.
  - destruct q2 as [|q2|q2]; try lia.
    assert (Hd : Z.pos (digits2_pos q2) = 53).
    { apply digits2_pos_unique. rewrite pow2_53. change (2 ^ (53 - 1)) with 4503599627370496. lia. }
    rewrite shr_fexp_keep by lia. cbn [shr_m].
    replace (E <=? emax - prec) with true
      by (symmetry; apply Z.leb_le; unfold emax, prec; lia).
    eexists _, _. split; [reflexivity|]. split; [lia|].
    replace (E - E) with 0 by lia. change (2 ^ 0) with 1. lia.
Qed.

(** Rounding a mantissa of 53 or 54 digits: the result is finite, its
    value is the truncated mantissa or the next one, and it is the truncated
    mantissa when nothing is lost. *)
Lemma binary_round_aux_near (P : positive) (E : Z) (l : location) (sh : Z) :
  sh = Z.pos (digits2_pos P) - 53 -> 0 <= sh <= 1 -> -1074 <= E < 960 ->
  exists m e q2,
    binary_round_aux prec emax false (Z.pos P) E l = S754_finite false m e /\
    E + sh <= e <= E + sh + 1 /\ Z.pos m * 2 ^ (e - (E + sh)) = q2 /\
    Z.pos P / 2 ^ sh <= q2 <= Z.pos P / 2 ^ sh + 1 /\
    (l = loc_Exact -> Z.pos P mod 2 ^ sh = 0 -> q2 = Z.pos P / 2 ^ sh).
Proof.
  intros Hsh Hs He. unfold binary_round_aux.
  pose proof (digits2_pos_bounds P) as [Plo Phi].
  assert (Hd : Z.pos (digits2_pos P) = 53 + sh) by lia. clear Hsh.
  destruct (Z.eq_dec sh 0) as [->|Hs1].
  - change (53 + 0) with 53 in Hd. rewrite Hd in Plo, Phi.
    change (2 ^ (53 - 1)) with 4503599627370496 in Plo. rewrite pow2_53 in Phi.
    rewrite shr_fexp_keep_loc by lia.
    rewrite shr_m_of_loc, loc_of_shr_record_of_loc.
    pose proof (round_nearest_even_bounds (Z.pos P) l) as Hr.
    set (q2 := round_nearest_even (Z.pos P) l) in *.
    destruct (renormalise q2 E) as (m & e & H & Hee & Hv); [lia|lia|].
    exists m, e, q2. split; [exact H|]. change (2 ^ 0) with 1. rewrite Z.div_1_r.
    replace (E + 0) with E by lia.
    split; [lia|]. split; [exact Hv|]. split; [exact Hr|].
    intros -> _. reflexivity.
  - assert (Hsh1 : sh = 1) by lia. subst sh.
    change (53 + 1) with 54 in Hd. rewrite Hd in Plo, Phi.
    change (2 ^ (54 - 1)) with 9007199254740992 in Plo.
    change (2 ^ 54) with 18014398509481984 in Phi.
    rewrite shr_fexp_one by lia.
    assert (Hm : shr_m (shr_1 (shr_record_of_loc (Z.pos P) l)) = Z.pos P / 2).
    { rewrite shr_1_m by (rewrite shr_m_of_loc; lia). rewrite shr_m_of_loc. reflexivity. }
    change (2 ^ 1) with 2.
    pose proof (Z.div_mod (Z.pos P) 2) as Hdm. pose proof (Z.mod_pos_bound (Z.pos P) 2) as Hmb.
    pose proof (round_nearest_even_bounds (shr_m (shr_1 (shr_record_of_loc (Z.pos P) l)))
                  (loc_of_shr_record (shr_1 (shr_record_of_loc (Z.pos P) l)))) as Hr.
    set (q2 := round_nearest_even (shr_m (shr_1 (shr_record_of_loc (Z.pos P) l)))
                  (loc_of_shr_record (shr_1 (shr_record_of_loc (Z.pos P) l)))) in *.
    rewrite Hm in Hr.
    destruct (renormalise q2 (E + 1)) as (m & e & H & Hee & Hv); [lia|lia|].
    exists m, e, q2. split; [exact H|]. split; [lia|]. split; [exact Hv|]. split; [exact Hr|].
    intros -> Hev. subst q2. destruct P as [p|p|].
    + exfalso. change (Z.pos p~1) with (2 * Z.pos p + 1) in Hev.
      rewrite Z.add_comm, Z.mul_comm, Z.mod_add in Hev by lia. discriminate Hev.
    + cbn. change (Z.pos p~0) with (2 * Z.pos p).
      rewrite Z.mul_comm, Z.div_mul by lia. reflexivity.
    + discriminate Hev.
Qed.

(** The ceiling of a quotient by 7 survives a rounding of the quotient to a
    multiple of [1 / N], as long as [N] is at least 8. *)
Lemma ceil_of_rounded_quotient (D N q2 : Z) :
  0 < D -> 8 <= N ->
  (D * N) / 7 <= q2 <= (D * N) / 7 + 1 ->
  (D mod 7 = 0 -> q2 = (D * N) / 7) ->
  - ((- q2) / N) = - ((- D) / 7).
Proof.
  intros HD HN Hq Hex.
  pose proof (Z.div_mod D 7) as Hdm. pose proof (Z.mod_pos_bound D 7) as Hmb.
  set (k := D / 7) in *. set (rho := D mod 7) in *.
  assert (HDN : D * N = k * N * 7 + rho * N) by (rewrite Hdm at 1 by lia; ring).
  rewrite HDN, Z.div_add_l in Hq, Hex by lia.
  pose proof (Z.div_mod (rho * N) 7) as Hu. pose proof (Z.mod_pos_bound (rho * N) 7) as Hub.
  set (u := rho * N / 7) in *. set (kN := k * N) in *.
  assert (HD7 : (- D) / 7 = - k - (if rho =? 0 then 0 else 1)).
  { destruct (Z.eqb_spec rho 0) as [H0|H0].
    - symmetry. apply Z.div_unique with (r := 0); lia.
    - symmetry. apply Z.div_unique with (r := 7 - rho); lia. }
  rewrite HD7. destruct (Z.eqb_spec rho 0) as [H0|H0].
  - rewrite (Hex H0). assert (u = 0) by (unfold u; rewrite H0; reflexivity).
    replace (- (kN + u)) with (- k * N) by (unfold kN; lia).
    rewrite Z.div_mul by lia. lia.
  - assert (Hur : 1 <= u <= N - 2).
    { assert (Hc : rho = 1 \/ rho = 2 \/ rho = 3 \/ rho = 4 \/ rho = 5 \/ rho = 6) by lia.
      clear - Hc Hu Hub HN. destruct Hc as [->|[->|[->|[->|[->| ->]]]]]; lia. }
    assert (Hd : (- q2) / N = - k - 1).
    { symmetry. apply Z.div_unique with (r := kN + N - q2); [lia|]. unfold kN. ring. }
    rewrite Hd. lia.
Qed.

Lemma seven_as_float : float_of_int 7 = S754_finite false 7881299347898368 (-50).
Proof. reflexivity. Qed.

(** [math.ceil(day / 7)] in binary64 is the ceiling of the exact quotient
    for every day count below 2^52. *)
Lemma weeks_is_ceiling (day : Z) :
  0 <= day < 2 ^ 52 -> Daily.weeks day = Ok (ceil_div day 7).
Proof.
  intros [H0 Hhi]. unfold Daily.weeks, int_truediv, ceil_div.
  destruct day as [|D|D]; [reflexivity| |lia].
  pose proof (digits2_pos_bounds D) as [Dlo Dhi].
  assert (Hd : Z.pos (digits2_pos D) <= 52).
  { assert (Z.pos (digits2_pos D) - 1 < 52); [|lia]. apply (Z.pow_lt_mono_r_iff 2); lia. }
  destruct (float_of_int_small D) as (m1 & -> & Hm1 & Hv1); [lia|].
  set (d := Z.pos (digits2_pos D)) in *.
  assert (Hd1 : 1 <= d) by (unfold d; lia).
  rewrite seven_as_float. unfold fdiv, SFdiv. cbn [xorb].
  unfold SFdiv_core_binary. cbn [Zdigits2]. rewrite Hm1.
  change (Z.pos (digits2_pos 7881299347898368)) with 53.
  assert (He' : Z.min (fexp prec emax (53 + (d - 53) - (53 + -50))) (d - 53 - -50) = d - 56)
    by (unfold fexp, SpecFloat.emin, prec, emax; lia).
  rewrite He'. replace (d - 53 - -50 - (d - 56)) with 53 by lia.
  cbv iota. rewrite Z.shiftl_mul_pow2 by lia.
  pose proof (Z_div_mod (Z.pos m1 * 2 ^ 53) 7881299347898368 eq_refl) as Hdm.
  destruct (Z.div_eucl (Z.pos m1 * 2 ^ 53) 7881299347898368) as [q r] eqn:Hdiv.
  destruct Hdm as [Hq Hr].
  (* the quotient is that of [A = D * 2^(56 - d)] by 7 *)
  set (A := Z.pos D * 2 ^ (56 - d)).
  assert (HA : Z.pos m1 * 2 ^ 53 = A * 1125899906842624).
  { unfold A. rewrite Hv1. change 1125899906842624 with (2 ^ 50).
    rewrite <- !Z.mul_assoc, <- !Z.pow_add_r by lia. do 2 f_equal. lia. }
  rewrite HA in Hq.
  assert (Hrho : 0 <= A - 7 * q < 7).
  { clear - Hq Hr. nia. }
  assert (HqA : q = A / 7) by (apply Z.div_unique with (r := A - 7 * q); lia).
  assert (Hr0 : A mod 7 = 0 -> r = 0).
  { intros HA0. pose proof (Z.div_mod A 7). clear - Hq Hr HqA HA0 H. lia. }
  assert (HAb : 2 ^ 55 <= A < 2 ^ 56).
  { unfold A. split.
    - replace 55 with ((d - 1) + (56 - d)) by lia. rewrite Z.pow_add_r by lia.
      apply Z.mul_le_mono_nonneg_r; [apply Z.pow_nonneg; lia|exact Dlo].
    - replace 56 with (d + (56 - d)) at 2 by lia. rewrite Z.pow_add_r by lia.
      apply Z.mul_lt_mono_pos_r; [apply Z.pow_pos_nonneg; lia|exact Dhi]. }
  change (2 ^ 55) with 36028797018963968 in HAb.
  change (2 ^ 56) with 72057594037927936 in HAb.
  assert (Hqb : 2 ^ 52 <= q < 2 ^ 54).
  { change (2 ^ 52) with 4503599627370496. change (2 ^ 54) with 18014398509481984.
    clear - Hrho HAb. lia. }
  destruct q as [|Q|Q]; try (exfalso; clear - Hqb; lia).
  assert (Hsh : exists sh, (sh = 0 \/ sh = 1) /\ 2 ^ (52 + sh) <= Z.pos Q < 2 ^ (53 + sh)).
  { destruct (Z_lt_le_dec (Z.pos Q) (2 ^ 53)) as [Hlt|Hge].
    - exists 0. split; [left; reflexivity|]. split; [apply Hqb|exact Hlt].
    - exists 1. split; [right; reflexivity|]. split; [exact Hge|apply Hqb]. }
  destruct Hsh as (sh & Hsh & HQ).
  assert (HdQ : Z.pos (digits2_pos Q) = 53 + sh).
  { apply digits2_pos_unique. replace (53 + sh - 1) with (52 + sh) by lia. exact HQ. }
  destruct (binary_round_aux_near Q (d - 56) (new_location 7881299347898368 r) sh)
    as (m & e & q2 & Hround & He & Hval & Hq2 & Hexact); [lia|lia|lia|].
  rewrite Hround. unfold math_ceil.
  replace (0 <=? e) with false by (symmetry; apply Z.leb_gt; lia).
  f_equal.
  set (N := 2 ^ (56 - d - sh)).
  assert (HN : 8 <= N).
  { change 8 with (2 ^ 3). apply Z.pow_le_mono_r; lia. }
  assert (HAN : A = Z.pos D * N * 2 ^ sh).
  { unfold A, N. rewrite <- Z.mul_assoc, <- Z.pow_add_r by lia. do 2 f_equal. lia. }
  assert (Hsh0 : 0 < 2 ^ sh) by (apply Z.pow_pos_nonneg; lia).
  assert (Hq0 : Z.pos Q / 2 ^ sh = Z.pos D * N / 7).
  { rewrite HqA, Z.div_div, (Z.mul_comm 7), <- Z.div_div by lia.
    rewrite HAN, Z.div_mul by lia. reflexivity. }
  rewrite Hq0 in Hq2, Hexact.
  rewrite <- (ceil_of_rounded_quotient (Z.pos D) N q2); [|lia|exact HN|exact Hq2|].
  - f_equal. rewrite <- Hval.
    assert (HNe : N = 2 ^ (- e) * 2 ^ (e - (d - 56 + sh))).
    { unfold N. rewrite <- Z.pow_add_r by lia. f_equal. lia. }
    rewrite HNe, <- Z.mul_opp_l. symmetry.
    apply Z.div_mul_cancel_r; [|]; apply Z.neq_sym, Z.lt_neq, Z.pow_pos_nonneg; lia.
  - intros HD7.
    pose proof (Z.div_mod (Z.pos D) 7) as HDk. rewrite HD7 in HDk.
    set (k := Z.pos D / 7) in *.
    assert (HAk : A = (k * N * 2 ^ sh) * 7) by (rewrite HAN, HDk by lia; ring).
    apply Hexact.
    + rewrite Hr0; [reflexivity|]. rewrite HAk. apply Z.mod_mul. lia.
    + rewrite HqA, HAk, Z.div_mul by lia. apply Z.mod_mul. lia.
Qed.

(** ** Snapshots of the unoccurred events *)

Lemma unoccurred_indices_from (occ : list bool) : unoccurred_indices occ = unocc_from 0 occ.
Proof. reflexivity. Qed.

Lemma unocc_from_cons (k : nat) (b : bool) (occ : list bool) :
  unocc_from k (b :: occ) = if b then unocc_from (S k) occ else k :: unocc_from (S k) occ.
Proof. unfold unocc_from. simpl. destruct b; reflexivity. Qed.

Lemma unocc_from_app (k : nat) (occ1 occ2 : list bool) :
  unocc_from k (occ1 ++ occ2) = unocc_from k occ1 ++ unocc_from (k + length occ1) occ2.
Proof.
  revert k. induction occ1 as [|b occ1 IH]; intros k.
  - simpl. rewrite Nat.add_0_r. reflexivity.
  - change ((b :: occ1) ++ occ2) with (b :: (occ1 ++ occ2)).
    rewrite !unocc_from_cons, IH. simpl length.
    replace (S k + length occ1)%nat with (k + S (length occ1))%nat by lia.
    destruct b; reflexivity.
Qed.

Lemma unocc_from_bounds (k : nat) (occ : list bool) (i : nat) :
  i ∈ unocc_from k occ -> (k <= i < k + length occ)%nat.
Proof.
  revert k. induction occ as [|b occ IH]; intros k Hi.
  - inversion Hi.
  - rewrite unocc_from_cons in Hi. simpl length.
    destruct b.
    + apply IH in Hi. lia.
    + apply elem_of_cons in Hi as [->|Hi]; [lia|]. apply IH in Hi. lia.
Qed.

Lemma unocc_from_NoDup (k : nat) (occ : list bool) : NoDup (unocc_from k occ).
Proof.
  revert k. induction occ as [|b occ IH]; intros k.
  - constructor.
  - rewrite unocc_from_cons. destruct b; [apply IH|].
    apply NoDup_cons. split; [|apply IH].
    intros Hin. apply unocc_from_bounds in Hin. lia.
Qed.

Lemma unocc_from_nil (k : nat) (occ : list bool) :
  unocc_from k occ = [] <-> all occ = true.
Proof.
  revert k. induction occ as [|b occ IH]; intros k.
  - split; reflexivity.
  - rewrite unocc_from_cons. unfold all in *. simpl. destruct b; simpl.
    + apply IH.
    + split; discriminate.
Qed.

Lemma unocc_from_elem (k : nat) (occ : list bool) (i : nat) :
  i ∈ unocc_from k occ <-> (k <= i)%nat /\ occ !! (i - k)%nat = Some false.
Proof.
  revert k. induction occ as [|b occ IH]; intros k.
  - split; [intros H; inversion H|intros [_ H]; discriminate].
  - rewrite unocc_from_cons. destruct b.
    + rewrite IH. split.
      * intros [Hk Hl]. split; [lia|].
        replace (i - k)%nat with (S (i - S k)) by lia. exact Hl.
      * intros [Hk Hl]. destruct (i - k)%nat as [|d] eqn:Hd; [discriminate|].
        split; [lia|]. replace (i - S k)%nat with d by lia. exact Hl.
    + rewrite elem_of_cons, IH. split.
      * intros [->|[Hk Hl]].
        -- split; [lia|]. rewrite Nat.sub_diag. reflexivity.
        -- split; [lia|]. replace (i - k)%nat with (S (i - S k)) by lia. exact Hl.
      * intros [Hk Hl]. destruct (i - k)%nat as [|d] eqn:Hd.
        -- left. lia.
        -- right. split; [lia|]. replace (i - S k)%nat with d by lia. exact Hl.
Qed.

Lemma unoccurred_position (occ : list bool) (i : nat) :
  occ !! i = Some false -> unoccurred_indices occ !! start_rank occ i = Some i.
Proof.
  intros Hi. change (unocc_from 0 occ !! length (unocc_from 0 (take i occ)) = Some i).
  assert (E : unocc_from 0 occ =
              unocc_from 0 (take i occ) ++ unocc_from (0 + length (take i occ)) (drop i occ))
    by (rewrite <- unocc_from_app, take_drop; reflexivity).
  rewrite E. clear E.
  assert (Hlen : length (take i occ) = i).
  { apply lookup_lt_Some in Hi. rewrite length_take. lia. }
  rewrite Hlen. simpl.
  rewrite lookup_app_r by lia. rewrite Nat.sub_diag.
  destruct (drop i occ) as [|b rest] eqn:Hdrop.
  - apply (f_equal length) in Hdrop. rewrite length_drop in Hdrop.
    apply lookup_lt_Some in Hi. simpl in Hdrop. lia.
  - assert (Hb : b = false).
    { assert (H0 : drop i occ !! 0%nat = Some false)
        by (rewrite lookup_drop, Nat.add_0_r; exact Hi).
      rewrite Hdrop in H0. simpl in H0. congruence. }
    subst b. rewrite unocc_from_cons. reflexivity.
Qed.

Lemma unoccurred_rank (occ : list bool) (r i : nat) :
  unoccurred_indices occ !! r = Some i -> occ !! i = Some false /\ start_rank occ i = r.
Proof.
  intros Hr.
  assert (Hin : i ∈ unocc_from 0 occ) by (eapply list_elem_of_lookup_2; exact Hr).
  apply unocc_from_elem in Hin as [_ Hi]. rewrite Nat.sub_0_r in Hi.
  split; [exact Hi|].
  pose proof (unoccurred_position occ i Hi) as Hp.
  eapply NoDup_lookup; [apply (unocc_from_NoDup 0 occ)|exact Hp|exact Hr].
Qed.

Lemma bind_Ok {A B : Type} (a : A) (k : A -> result B) : (Ok a ≫= k) = k a.
Proof. reflexivity. Qed.

(** ** One step *)

Section EngineFacts.

Variable rand : stream.
Variable effective : float64 -> float64 -> float64.
Variable prob_list : list float64.

(** A fully penalised event is skipped: no draw, no change. *)
Lemma attempt_full_penalty (st : state) (rank i : nat) :
  (10 <= rank)%nat -> attempt rand effective prob_list st rank i = Ok st.
Proof.
  intros Hr. unfold attempt. rewrite full_penalty_from_ten by exact Hr. reflexivity.
Qed.

(** Any other event takes exactly one draw, and is marked when the draw
    is below its effective probability. *)
Lemma attempt_draw (st : state) (rank i : nat) (b : bool) (c0 : nat) :
  (rank < 10)%nat -> (i < length prob_list)%nat ->
  occurred st !! i = Some b -> cursor st = (c0 + rank)%nat ->
  exists st',
    attempt rand effective prob_list st rank i = Ok st' /\
    cursor st' = S (cursor st) /\
    length (occurred st') = length (occurred st) /\
    occurred st' !! i = Some (b || fires rand effective prob_list c0 rank i) /\
    (forall j, j <> i -> occurred st' !! j = occurred st !! j).
Proof.
  intros Hr Hi Hb Hc. unfold attempt, fires.
  rewrite full_penalty_below_ten by exact Hr.
  destruct (lookup_lt_is_Some_2 prob_list i Hi) as [p Hp].
  unfold getitem. rewrite Hp. rewrite bind_Ok. cbn [negb andb]. rewrite <- Hc.
  destruct (flt (rand (cursor st)) (effective p (penalty_fraction rank))) eqn:Hf.
  - unfold setitem.
    assert (Hlt : (i <? length (occurred st))%nat = true).
    { apply Nat.ltb_lt. eapply lookup_lt_Some; exact Hb. }
    rewrite Hlt, bind_Ok. eexists. split; [reflexivity|]. cbn [cursor occurred].
    split; [reflexivity|]. split; [apply length_insert|]. split.
    + rewrite list_lookup_insert_eq by (apply Nat.ltb_lt; exact Hlt).
      rewrite orb_true_r. reflexivity.
    + intros j Hj. apply list_lookup_insert_ne. congruence.
  - eexists. split; [reflexivity|]. cbn [cursor occurred].
    split; [reflexivity|]. split; [reflexivity|]. split.
    + rewrite orb_false_r. exact Hb.
    + reflexivity.
Qed.

(** The [for] loop over a list of distinct indices that starts at rank
    [r], in a step that found the generator at [c0]. *)
Lemma for_loop_spec (idxs : list nat) :
  forall (r : nat) (st : state) (c0 : nat),
  NoDup idxs ->
  (forall i, i ∈ idxs -> (i < length (occurred st))%nat /\ (i < length prob_list)%nat) ->
  cursor st = (c0 + Nat.min 10 r)%nat ->
  exists st',
    for_loop rand effective prob_list (enumerate_from r idxs) st = Ok st' /\
    length (occurred st') = length (occurred st) /\
    cursor st' = (c0 + Nat.min 10 (r + length idxs))%nat /\
    (forall j, j ∉ idxs -> occurred st' !! j = occurred st !! j) /\
    (forall k i b, idxs !! k = Some i -> occurred st !! i = Some b ->
                   occurred st' !! i = Some (b || fires rand effective prob_list c0 (r + k) i)).
Proof.
  induction idxs as [|i idxs IH]; intros r st c0 Hnd Hin Hc.
  - exists st. simpl. rewrite Nat.add_0_r. repeat split; try assumption; try reflexivity.
    intros k i b Hk. discriminate.
  - apply NoDup_cons in Hnd as [Hni Hnd].
    destruct (Hin i) as [Hio Hip]; [left|].
    destruct (lookup_lt_is_Some_2 (occurred st) i Hio) as [b0 Hb0].
    assert (Hhead : exists st1,
               attempt rand effective prob_list st r i = Ok st1 /\
               cursor st1 = (c0 + Nat.min 10 (S r))%nat /\
               length (occurred st1) = length (occurred st) /\
               occurred st1 !! i = Some (b0 || fires rand effective prob_list c0 r i) /\
               (forall j, j <> i -> occurred st1 !! j = occurred st !! j)).
    { destruct (le_lt_dec 10 r) as [Hr|Hr].
      - exists st. rewrite attempt_full_penalty by exact Hr.
        split; [reflexivity|]. split; [lia|]. split; [reflexivity|]. split; [|reflexivity].
        unfold fires. rewrite full_penalty_from_ten by exact Hr.
        destruct (prob_list !! i); cbn; rewrite orb_false_r; exact Hb0.
      - destruct (attempt_draw st r i b0 c0) as (st1 & H1 & H2 & H3 & H4 & H5);
          try assumption; [lia|].
        exists st1. split; [exact H1|]. split; [lia|]. auto. }
    destruct Hhead as (st1 & H1 & H2 & H3 & H4 & H5).
    destruct (IH (S r) st1 c0 Hnd) as (st' & L1 & L2 & L3 & L4 & L5).
    { intros j Hj. rewrite H3. apply Hin. right. exact Hj. }
    { exact H2. }
    exists st'. cbn [enumerate_from for_loop]. rewrite H1, bind_Ok.
    split; [exact L1|]. split; [congruence|]. split; [simpl length; rewrite L3; f_equal; lia|].
    split.
    + intros j Hj. apply not_elem_of_cons in Hj as [Hji Hj].
      rewrite L4 by exact Hj. apply H5. exact Hji.
    + intros k j b Hk Hb. destruct k as [|k].
      * simpl in Hk. injection Hk as <-. rewrite Nat.add_0_r.
        rewrite L4 by exact Hni. rewrite H4. congruence.
      * simpl in Hk.
        assert (Hji : j <> i).
        { intros ->. apply Hni. eapply list_elem_of_lookup_2. exact Hk. }
        replace (r + S k)%nat with (S r + k)%nat by lia.
        apply L5; [exact Hk|]. rewrite H5 by exact Hji. exact Hb.
Qed.

End EngineFacts.

(** ** The loop of a trial *)

Section LoopFacts.

Variable rand : stream.
Variable effective : float64 -> float64 -> float64.
Variable prob_list : list float64.

(** One step, in closed form: the flags after the step are determined by
    the flags and the generator position found at its start. *)
Lemma step_spec (st : state) :
  length (occurred st) = length prob_list ->
  exists st',
    step rand effective prob_list st = Ok st' /\
    length (occurred st') = length prob_list /\
    cursor st' = (cursor st + Nat.min 10 (length (unoccurred_indices (occurred st))))%nat /\
    (forall i b, occurred st !! i = Some b ->
       occurred st' !! i
       = Some (b || fires rand effective prob_list (cursor st)
                      (start_rank (occurred st) i) i)).
Proof.
  intros Hlen. unfold step, enumerate.
  destruct (for_loop_spec rand effective prob_list (unoccurred_indices (occurred st))
              0%nat st (cursor st)) as (st' & H1 & H2 & H3 & H4 & H5).
  - apply (unocc_from_NoDup 0).
  - intros i Hi. apply (unocc_from_bounds 0) in Hi. lia.
  - simpl. lia.
  - exists st'. split; [exact H1|]. split; [congruence|]. split; [exact H3|].
    intros i b Hb. destruct b.
    + rewrite H4; [exact Hb|]. intros Hin.
      apply (unocc_from_elem 0) in Hin as [_ Hin]. rewrite Nat.sub_0_r in Hin. congruence.
    + apply (H5 (start_rank (occurred st) i)); [|exact Hb].
      apply unoccurred_position. exact Hb.
Qed.

Lemma while_loop_unfold (fuel : nat) (limit week : Z) (st : state) :
  while_loop rand effective prob_list fuel limit week st =
  if week <? limit then
    match fuel with
    | O => OutOfFuel
    | S fuel' =>
        match unoccurred_indices (occurred st) with
        | [] => Ok (week + 1, st)
        | _ :: _ =>
            st' ← step rand effective prob_list st;
            if all (occurred st') then Ok (week + 1, st')
            else while_loop rand effective prob_list fuel' limit (week + 1) st'
        end
    end
  else Ok (week, st).
Proof. destruct fuel; reflexivity. Qed.

(** The [while] loop returns; its counter ends within the limit, and at
    the limit when an event is left unoccurred. *)
Lemma while_loop_spec (fuel : nat) :
  forall (limit week : Z) (st : state),
  (Z.to_nat (limit - week) <= fuel)%nat ->
  length (occurred st) = length prob_list ->
  exists w st',
    while_loop rand effective prob_list fuel limit week st = Ok (w, st') /\
    length (occurred st') = length prob_list /\
    (cursor st <= cursor st')%nat /\
    (week < limit -> week < w <= limit) /\
    (limit <= week -> w = week /\ st' = st) /\
    (all (occurred st') = false -> w = Z.max week limit).
Proof.
  induction fuel as [|fuel IH]; intros limit week st Hfuel Hlen;
    rewrite while_loop_unfold; destruct (Z.ltb_spec week limit) as [Hlt|Hge].
  - lia.
  - exists week, st. repeat split; try assumption; try lia.
  - destruct (unoccurred_indices (occurred st)) as [|i0 rest] eqn:Hun.
    + exists (week + 1), st. repeat split; try assumption; try lia.
      intros Hall. apply (unocc_from_nil 0) in Hun. congruence.
    + destruct (step_spec st Hlen) as (st1 & H1 & H2 & H3 & H4).
      rewrite H1, bind_Ok. destruct (all (occurred st1)) eqn:Hall1.
      * exists (week + 1), st1. repeat split; try assumption; try lia. congruence.
      * destruct (IH limit (week + 1) st1) as (w & st' & L1 & L2 & L3 & L4 & L5 & L6);
          [lia|exact H2|].
        exists w, st'. split; [exact L1|]. split; [exact L2|]. split; [lia|].
        split; [|split].
        -- intros _. destruct (Z.lt_ge_cases (week + 1) limit) as [Hl|Hg].
           ++ specialize (L4 Hl). lia.
           ++ destruct (L5 Hg) as [-> _]. lia.
        -- lia.
        -- intros Hall. rewrite (L6 Hall). lia.
  - exists week, st. repeat split; try assumption; try lia.
Qed.

Lemma trial_spec (limit : Z) (c : nat) :
  exists w st,
    trial rand effective prob_list limit c = Ok (w, st) /\
    length (occurred st) = length prob_list /\
    (c <= cursor st)%nat /\
    (0 < limit -> 0 < w <= limit) /\
    (limit <= 0 -> w = 0) /\
    (all (occurred st) = false -> w = Z.max 0 limit).
Proof.
  unfold trial.
  destruct (while_loop_spec (Z.to_nat limit) limit 0
              {| occurred := replicate (length prob_list) false; cursor := c |})
    as (w & st & H1 & H2 & H3 & H4 & H5 & H6).
  - replace (limit - 0) with limit by lia. lia.
  - simpl. apply length_replicate.
  - exists w, st. split; [exact H1|]. split; [exact H2|]. split; [exact H3|].
    split; [exact H4|]. split; [|exact H6]. intros Hl. apply H5. exact Hl.
Qed.

End LoopFacts.

(** ** The loop over the trials *)

Section BatchFacts.

Variable rand : stream.
Variable effective : float64 -> float64 -> float64.
Variable prob_list : list float64.
Variable report : Z -> result Z.

Lemma cursor_after_S (limit : Z) (c : nat) (k : nat) (w : Z) (st : state) :
  trial rand effective prob_list limit c = Ok (w, st) ->
  cursor_after rand effective prob_list limit c (S k)
  = cursor_after rand effective prob_list limit (cursor st) k.
Proof. intros H. cbn [cursor_after]. rewrite H. reflexivity. Qed.

(** The trials run one after the other; trial [j] finds the generator where
    trial [j - 1] left it and its value goes to slot [k + j].  The report of
    a counter a trial can end with is assumed not to raise. *)
Lemma trials_loop_spec (limit : Z) (n : nat) :
  (forall c w st, trial rand effective prob_list limit c = Ok (w, st) ->
                  exists v, report w = Ok v) ->
  forall (k : nat) (all_T : list Z) (c : nat),
  (k + n <= length all_T)%nat ->
  exists all_T',
    trials_loop rand effective prob_list report limit (seq k n) all_T c
    = Ok (all_T', cursor_after rand effective prob_list limit c n) /\
    length all_T' = length all_T /\
    (forall j, (j < k)%nat -> all_T' !! j = all_T !! j) /\
    (forall j, (j < n)%nat ->
       exists w st v,
         trial rand effective prob_list limit
           (cursor_after rand effective prob_list limit c j) = Ok (w, st) /\
         report w = Ok v /\ all_T' !! (k + j)%nat = Some v).
Proof.
  intros Hrep. induction n as [|n IH]; intros k all_T c Hlen.
  - exists all_T. repeat split; auto. intros j Hj. lia.
  - destruct (trial_spec rand effective prob_list limit c) as (w & st & Ht & _).
    destruct (Hrep c w st Ht) as [v Hv].
    cbn [seq trials_loop]. rewrite Ht, bind_Ok. cbn [fst snd]. rewrite Hv, bind_Ok.
    unfold setitem.
    assert (Hk : (k <? length all_T)%nat = true) by (apply Nat.ltb_lt; lia).
    rewrite Hk, bind_Ok.
    destruct (IH (S k) (<[k := v]> all_T) (cursor st)) as (all_T' & L1 & L2 & L3 & L4).
    { rewrite length_insert. lia. }
    exists all_T'. rewrite (cursor_after_S limit c n w st Ht).
    split; [exact L1|]. split; [rewrite L2; apply length_insert|]. split.
    + intros j Hj. rewrite L3 by lia. apply list_lookup_insert_ne. lia.
    + intros j Hj. destruct j as [|j].
      * exists w, st, v. split; [exact Ht|]. split; [exact Hv|]. rewrite Nat.add_0_r.
        rewrite L3 by lia. apply list_lookup_insert_eq. lia.
      * rewrite (cursor_after_S limit c j w st Ht).
        destruct (L4 j) as (w' & st' & v' & T1 & T2 & T3); [lia|].
        exists w', st', v'. split; [exact T1|]. split; [exact T2|].
        replace (k + S j)%nat with (S k + j)%nat by lia. exact T3.
Qed.

Lemma batch_spec (limit num_samples : Z) (c : nat) :
  0 <= num_samples ->
  (forall c w st, trial rand effective prob_list limit c = Ok (w, st) ->
                  exists v, report w = Ok v) ->
  exists all_T,
    batch rand effective prob_list report limit num_samples c
    = Ok (all_T, cursor_after rand effective prob_list limit c (Z.to_nat num_samples)) /\
    length all_T = Z.to_nat num_samples /\
    (forall j, (j < Z.to_nat num_samples)%nat ->
       exists w st v,
         trial rand effective prob_list limit
           (cursor_after rand effective prob_list limit c j) = Ok (w, st) /\
         report w = Ok v /\ all_T !! j = Some v).
Proof.
  intros Hn Hrep. unfold batch, range.
  destruct (Z.ltb_spec num_samples 0) as [H|_]; [lia|].
  destruct (trials_loop_spec limit (Z.to_nat num_samples) Hrep 0
              (replicate (Z.to_nat num_samples) 0) c) as (all_T & L1 & L2 & _ & L4).
  { rewrite length_replicate. lia. }
  exists all_T. split; [exact L1|]. split; [rewrite L2; apply length_replicate|].
  exact L4.
Qed.


(** Every value of the array satisfies what every trial's value satisfies. *)
Lemma batch_Forall (P : Z -> Prop) (limit num_samples : Z) (c : nat) :
  0 <= num_samples ->
  (forall c' w st, trial rand effective prob_list limit c' = Ok (w, st) ->
                   exists v, report w = Ok v /\ P v) ->
  exists all_T c',
    batch rand effective prob_list report limit num_samples c = Ok (all_T, c') /\
    length all_T = Z.to_nat num_samples /\ Forall P all_T.
Proof.
  intros Hn HP.
  destruct (batch_spec limit num_samples c Hn) as (all_T & B1 & B2 & B3).
  { intros c' w st H. destruct (HP c' w st H) as (v & Hv & _). exists v. exact Hv. }
  exists all_T, (cursor_after rand effective prob_list limit c (Z.to_nat num_samples)).
  split; [exact B1|]. split; [exact B2|].
  apply Forall_lookup. intros j x Hx.
  destruct (B3 j) as (w & st & v & T1 & T2 & T3).
  { rewrite <- B2. eapply lookup_lt_Some. exact Hx. }
  destruct (HP _ w st T1) as (v' & Hv' & HPv).
  assert (x = v') by congruence. subst x. exact HPv.
Qed.

End BatchFacts.

Lemma bind_Ok_inv {A B : Type} (r : result A) (k : A -> result B) (b : B) :
  (r ≫= k) = Ok b -> exists a, r = Ok a /\ k a = Ok b.
Proof. destruct r as [a| |]; intros H; try discriminate H. exists a. auto. Qed.

(** ** Dependence on the random stream *)

Section StreamFacts.

Variable effective : float64 -> float64 -> float64.
Variable prob_list : list float64.

(** *** The draws a computation reads *)

Lemma attempt_cursor (rand : stream) (st st1 : state) (rank i : nat) :
  attempt rand effective prob_list st rank i = Ok st1 ->
  cursor st1 = cursor st \/ cursor st1 = S (cursor st).
Proof.
  unfold attempt. destruct (full_penalty rank).
  - intros [= <-]. left. reflexivity.
  - intros H. apply bind_Ok_inv in H as (p & _ & H).
    destruct (flt _ _).
    + apply bind_Ok_inv in H as (occ & _ & [= <-]). right. reflexivity.
    + injection H as <-. right. reflexivity.
Qed.

Lemma attempt_ext (rand1 rand2 : stream) (st st1 : state) (rank i : nat) :
  attempt rand1 effective prob_list st rank i = Ok st1 ->
  (cursor st < cursor st1 -> rand1 (cursor st) = rand2 (cursor st))%nat ->
  attempt rand2 effective prob_list st rank i = Ok st1.
Proof.
  intros H Hr.
  assert (Hc := attempt_cursor rand1 st st1 rank i H).
  revert H. unfold attempt. destruct (full_penalty rank); [trivial|].
  destruct (getitem prob_list i) as [p| |]; try discriminate. rewrite !bind_Ok.
  intros H.
  assert (Hlt : (cursor st < cursor st1)%nat).
  { destruct Hc as [Hc|Hc]; [|lia]. exfalso.
    destruct (flt _ _) in H.
    - apply bind_Ok_inv in H as (occ & _ & [= <-]). simpl in Hc. lia.
    - injection H as <-. simpl in Hc. lia. }
  rewrite <- (Hr Hlt). exact H.
Qed.

Lemma for_loop_mono (rand : stream) (items : list (nat * nat)) :
  forall st st1, for_loop rand effective prob_list items st = Ok st1 ->
  (cursor st <= cursor st1)%nat.
Proof.
  induction items as [|[r i] items IH]; intros st st1 H.
  - injection H as <-. lia.
  - cbn [for_loop] in H. apply bind_Ok_inv in H as (sa & Ha & H).
    apply IH in H. apply attempt_cursor in Ha. lia.
Qed.

Lemma for_loop_ext (rand1 rand2 : stream) (items : list (nat * nat)) :
  forall st st1,
  for_loop rand1 effective prob_list items st = Ok st1 ->
  (forall k, (cursor st <= k < cursor st1)%nat -> rand1 k = rand2 k) ->
  for_loop rand2 effective prob_list items st = Ok st1.
Proof.
  induction items as [|[r i] items IH]; intros st st1 H Hr.
  - exact H.
  - cbn [for_loop] in *. apply bind_Ok_inv in H as (sa & Ha & H).
    assert (M1 := attempt_cursor rand1 _ _ _ _ Ha).
    assert (M2 := for_loop_mono rand1 _ _ _ H).
    rewrite (attempt_ext rand1 rand2 st sa r i Ha), bind_Ok.
    + apply IH; [exact H|]. intros k Hk. apply Hr. lia.
    + intros Hlt. apply Hr. lia.
Qed.

Lemma while_loop_mono (rand : stream) (fuel : nat) :
  forall limit week st w st1,
  while_loop rand effective prob_list fuel limit week st = Ok (w, st1) ->
  (cursor st <= cursor st1)%nat.
Proof.
  induction fuel as [|fuel IH]; intros limit week st w st1;
    rewrite while_loop_unfold; destruct (week <? limit); try discriminate;
    try (intros [= _ <-]; lia).
  destruct (unoccurred_indices (occurred st)); [intros [= _ <-]; lia|].
  intros H. apply bind_Ok_inv in H as (sa & Ha & H).
  apply for_loop_mono in Ha.
  destruct (all (occurred sa)).
  - injection H as _ <-. exact Ha.
  - apply IH in H. lia.
Qed.

Lemma while_loop_ext (rand1 rand2 : stream) (fuel : nat) :
  forall limit week st w st1,
  while_loop rand1 effective prob_list fuel limit week st = Ok (w, st1) ->
  (forall k, (cursor st <= k < cursor st1)%nat -> rand1 k = rand2 k) ->
  while_loop rand2 effective prob_list fuel limit week st = Ok (w, st1).
Proof.
  induction fuel as [|fuel IH]; intros limit week st w st1;
    rewrite !while_loop_unfold; destruct (week <? limit); try discriminate; trivial.
  destruct (unoccurred_indices (occurred st)) eqn:Hun; [trivial|].
  intros H Hr. apply bind_Ok_inv in H as (sa & Ha & H).
  assert (M1 := for_loop_mono rand1 _ _ _ Ha).
  assert (M2 : (cursor sa <= cursor st1)%nat).
  { destruct (all (occurred sa)); [injection H as _ <-; lia|].
    eapply while_loop_mono. exact H. }
  unfold step in *. rewrite Hun in *.
  rewrite (for_loop_ext rand1 rand2 _ st sa Ha), bind_Ok.
  - destruct (all (occurred sa)); [exact H|].
    apply IH; [exact H|]. intros k Hk. apply Hr. lia.
  - intros k Hk. apply Hr. lia.
Qed.

(** A trial reads the draws between the position it starts at and the
    position it ends at, and nothing else of the stream. *)
Lemma trial_ext (rand1 rand2 : stream) (limit : Z) (c : nat) (w : Z) (st : state) :
  trial rand1 effective prob_list limit c = Ok (w, st) ->
  (forall k, (c <= k < cursor st)%nat -> rand1 k = rand2 k) ->
  trial rand2 effective prob_list limit c = Ok (w, st).
Proof. intros H Hr. apply (while_loop_ext rand1); assumption. Qed.

Lemma trial_mono (rand : stream) (limit : Z) (c : nat) (w : Z) (st : state) :
  trial rand effective prob_list limit c = Ok (w, st) -> (c <= cursor st)%nat.
Proof. intros H. apply while_loop_mono in H. exact H. Qed.

Variable report : Z -> result Z.

(** A sequence of trials reads a segment of the stream, whether it ends
    normally or with an exception. *)
Lemma trials_loop_determined (rand1 : stream) (limit : Z) (ixs : list nat) :
  forall (all_T : list Z) (c : nat),
  exists c', (c <= c')%nat /\ forall rand2 : stream,
    (forall k, (c <= k < c')%nat -> rand1 k = rand2 k) ->
    trials_loop rand2 effective prob_list report limit ixs all_T c
    = trials_loop rand1 effective prob_list report limit ixs all_T c.
Proof.
  induction ixs as [|i ixs IH]; intros all_T c.
  - exists c. split; [lia|]. reflexivity.
  - destruct (trial_spec rand1 effective prob_list limit c) as (w & st & Ht & _ & Hc & _).
    assert (Hext : forall c' rand2, (cursor st <= c')%nat ->
              (forall k, (c <= k < c')%nat -> rand1 k = rand2 k) ->
              trial rand2 effective prob_list limit c = Ok (w, st)).
    { intros c' rand2 Hc' Hr. apply (trial_ext rand1 rand2 limit c w st Ht).
      intros k Hk. apply Hr. lia. }
    cbn [trials_loop]. rewrite Ht, bind_Ok. cbn [fst snd].
    destruct (report w) as [v|e|] eqn:Hv;
      [destruct (setitem all_T i v) as [a1|e|] eqn:Ha|..];
      [destruct (IH a1 (cursor st)) as (c' & Hc' & Hrest)|..].
    + exists c'. split; [lia|]. intros rand2 Hr.
      rewrite (Hext c' rand2 Hc' Hr), bind_Ok. cbn [fst snd].
      rewrite Hv, !bind_Ok, Ha, !bind_Ok. apply Hrest. intros k Hk. apply Hr. lia.
    + exists (cursor st). split; [exact Hc|]. intros rand2 Hr.
      rewrite (Hext (cursor st) rand2 (le_n _) Hr), bind_Ok. cbn [fst snd].
      rewrite Hv, !bind_Ok, Ha. reflexivity.
    + exists (cursor st). split; [exact Hc|]. intros rand2 Hr.
      rewrite (Hext (cursor st) rand2 (le_n _) Hr), bind_Ok. cbn [fst snd].
      rewrite Hv, !bind_Ok, Ha. reflexivity.
    + exists (cursor st). split; [exact Hc|]. intros rand2 Hr.
      rewrite (Hext (cursor st) rand2 (le_n _) Hr), bind_Ok. cbn [fst snd].
      rewrite Hv. reflexivity.
    + exists (cursor st). split; [exact Hc|]. intros rand2 Hr.
      rewrite (Hext (cursor st) rand2 (le_n _) Hr), bind_Ok. cbn [fst snd].
      rewrite Hv. reflexivity.
Qed.

(** *** Moving the origin of the stream *)

Lemma attempt_shift (rand : stream) (d : nat) (st : state) (rank i : nat) :
  attempt rand effective prob_list (shift_state d st) rank i =
  result_map (shift_state d) (attempt (shift rand d) effective prob_list st rank i).
Proof.
  unfold attempt. destruct (full_penalty rank); [reflexivity|].
  destruct (getitem prob_list i) as [p| |]; try reflexivity. rewrite !bind_Ok.
  cbn [cursor occurred shift_state]. unfold shift at 1.
  destruct (flt _ _).
  - destruct (setitem (occurred st) i true) as [occ| |]; try reflexivity.
    rewrite !bind_Ok. cbn. unfold shift_state. cbn. do 2 f_equal. lia.
  - cbn. unfold shift_state. cbn. do 2 f_equal. lia.
Qed.

Lemma for_loop_shift (rand : stream) (d : nat) (items : list (nat * nat)) :
  forall st,
  for_loop rand effective prob_list items (shift_state d st) =
  result_map (shift_state d) (for_loop (shift rand d) effective prob_list items st).
Proof.
  induction items as [|[r i] items IH]; intros st; [reflexivity|].
  cbn [for_loop]. rewrite attempt_shift.
  destruct (attempt (shift rand d) effective prob_list st r i) as [sa| |];
    try reflexivity.
  cbn [result_map]. rewrite !bind_Ok. apply IH.
Qed.

Lemma while_loop_shift (rand : stream) (d : nat) (fuel : nat) :
  forall limit week st,
  while_loop rand effective prob_list fuel limit week (shift_state d st) =
  result_map (fun r => (fst r, shift_state d (snd r)))
             (while_loop (shift rand d) effective prob_list fuel limit week st).
Proof.
  induction fuel as [|fuel IH]; intros limit week st;
    rewrite !while_loop_unfold; destruct (week <? limit); try reflexivity.
  cbn [occurred shift_state].
  destruct (unoccurred_indices (occurred st)) eqn:Hun; [reflexivity|].
  unfold step. cbn [occurred shift_state]. rewrite Hun, for_loop_shift.
  destruct (for_loop (shift rand d) effective prob_list _ st) as [sa| |];
    try reflexivity.
  cbn [result_map]. rewrite !bind_Ok. cbn [occurred shift_state].
  destruct (all (occurred sa)); [reflexivity|]. apply IH.
Qed.

(** A trial started at position [d] is the trial started at position 0 of
    the stream seen from [d] on. *)
Lemma trial_shift (rand : stream) (limit : Z) (d : nat) :
  trial rand effective prob_list limit d =
  result_map (fun r => (fst r, shift_state d (snd r)))
    (trial (shift rand d) effective prob_list limit 0).
Proof.
  unfold trial. rewrite <- while_loop_shift.
  unfold shift_state. cbn. rewrite Nat.add_0_r. reflexivity.
Qed.

End StreamFacts.

(** ** Completion values *)

Lemma trial_facts (rand : stream) (effective : float64 -> float64 -> float64)
      (prob_list : list float64) (limit : Z) (c : nat) (w : Z) (st : state) :
  trial rand effective prob_list limit c = Ok (w, st) ->
  (0 < limit -> 0 < w <= limit) /\ (limit <= 0 -> w = 0) /\
  (all (occurred st) = false -> w = Z.max 0 limit).
Proof.
  intros H. destruct (trial_spec rand effective prob_list limit c)
    as (w' & st' & H1 & _ & _ & H4 & H5 & H6).
  rewrite H in H1. injection H1 as <- <-. auto.
Qed.

Lemma ceil_div_spec (day : Z) : 7 * (ceil_div day 7 - 1) < day <= 7 * ceil_div day 7.
Proof.
  unfold ceil_div. pose proof (Z.div_mod (- day) 7).
  pose proof (Z.mod_pos_bound (- day) 7). lia.
Qed.









(** Claim C7 (the batch).  A run with [num_samples >= 0] returns exactly
    [num_samples] values.  The value at index [i] is the counter of the
    trial that starts, with all events unoccurred and the counter at 0,
    at the position where the first [i] trials left the generator.  Nothing
    else passes from one trial to the next: run on its own from position 0
    on the stream seen from that position, the trial ends with the same
    counter and the same flags, and has consumed the same number of
    draws. *)
Theorem batch_in_submission_order (rand : stream) (c : nat) (prob_list : list float64)
    (num_samples max_weeks : Z) :
  0 <= num_samples ->
  exists all_T,
    Weekly.run_biased_timer_simulation rand c prob_list num_samples max_weeks
      = Ok (all_T, cursor_after rand Weekly.effective_p prob_list max_weeks c
                     (Z.to_nat num_samples)) /\
    length all_T = Z.to_nat num_samples /\
    forall i, (i < Z.to_nat num_samples)%nat ->
      let c_i := cursor_after rand Weekly.effective_p prob_list max_weeks c i in
      exists week st,
        Weekly.trial rand prob_list max_weeks c_i = Ok (week, st) /\
        all_T !! i = Some week /\
        Weekly.trial (shift rand c_i) prob_list max_weeks 0
          = Ok (week, {| occurred := occurred st; cursor := cursor st - c_i |}).
Proof.
  intros Hn.
  destruct (batch_spec rand Weekly.effective_p prob_list (fun week => Ok week)
              max_weeks num_samples c Hn) as (all_T & B1 & B2 & B3).
  { intros c' w st _. exists w. reflexivity. }
  exists all_T. split; [exact B1|]. split; [exact B2|]. intros i Hi c_i.
  destruct (B3 i Hi) as (w & st & v & T1 & T2 & T3). injection T2 as <-.
  exists w, st. split; [exact T1|]. split; [exact T3|].
  fold c_i in T1. unfold Weekly.trial. rewrite trial_shift in T1.
  destruct (trial (shift rand c_i) Weekly.effective_p prob_list max_weeks 0)
    as [[w0 st0]| |]; try discriminate T1.
  cbn in T1. injection T1 as <- <-. destruct st0 as [occ0 c0]. cbn. do 3 f_equal. lia.
Qed.

(** Claim C8 (determinism).  A trial and a whole run, weekly or daily, are
    functions of the configuration and of the draws alone: there is a
    position [c'] such that every stream that agrees with [rand1] on the
    draws from [c] up to [c'] gives the same outcome, values, final flags and
    final generator position included (and the same exception, if the run
    ends with one).  In particular two runs on the same stream give the
    same result collection. *)
Theorem result_determined_by_draws (fpow : float64 -> float64 -> float64) (rand1 : stream)
    (c : nat) (prob_list : list float64) (num_samples max_weeks : Z) :
  (exists c', (c <= c')%nat /\ forall rand2 : stream,
     (forall k, (c <= k < c')%nat -> rand1 k = rand2 k) ->
     Weekly.trial rand2 prob_list max_weeks c = Weekly.trial rand1 prob_list max_weeks c) /\
  (exists c', (c <= c')%nat /\ forall rand2 : stream,
     (forall k, (c <= k < c')%nat -> rand1 k = rand2 k) ->
     Weekly.run_biased_timer_simulation rand2 c prob_list num_samples max_weeks
     = Weekly.run_biased_timer_simulation rand1 c prob_list num_samples max_weeks) /\
  (exists c', (c <= c')%nat /\ forall rand2 : stream,
     (forall k, (c <= k < c')%nat -> rand1 k = rand2 k) ->
     Daily.trial fpow rand2 prob_list max_weeks c
     = Daily.trial fpow rand1 prob_list max_weeks c) /\
  (exists c', (c <= c')%nat /\ forall rand2 : stream,
     (forall k, (c <= k < c')%nat -> rand1 k = rand2 k) ->
     Daily.run_biased_timer_simulation fpow rand2 c prob_list num_samples max_weeks
     = Daily.run_biased_timer_simulation fpow rand1 c prob_list num_samples max_weeks).
Proof.
  assert (T : forall effective limit,
             exists c', (c <= c')%nat /\ forall rand2 : stream,
               (forall k, (c <= k < c')%nat -> rand1 k = rand2 k) ->
               trial rand2 effective prob_list limit c
               = trial rand1 effective prob_list limit c).
  { intros effective limit.
    destruct (trial_spec rand1 effective prob_list limit c) as (w & st & H1 & _ & H3 & _).
    exists (cursor st). split; [exact H3|]. intros rand2 Hr.
    rewrite H1. eapply trial_ext; [exact H1|exact Hr]. }
  assert (B : forall effective report limit,
             exists c', (c <= c')%nat /\ forall rand2 : stream,
               (forall k, (c <= k < c')%nat -> rand1 k = rand2 k) ->
               batch rand2 effective prob_list report limit num_samples c
               = batch rand1 effective prob_list report limit num_samples c).
  { intros effective report limit. unfold batch.
    destruct (num_samples <? 0); [|apply trials_loop_determined].
    exists c. split; [lia|]. reflexivity. }
  split; [apply T|]. split; [apply B|]. split; [apply T|apply B].
Qed.

Lemma unocc_from_increasing (occ : list bool) :
  forall (k r1 r2 i1 i2 : nat),
  unocc_from k occ !! r1 = Some i1 -> unocc_from k occ !! r2 = Some i2 ->
  (r1 < r2)%nat -> (i1 < i2)%nat.
Proof.
  induction occ as [|b occ IH]; intros k r1 r2 i1 i2 H1 H2 Hr.
  - discriminate.
  - rewrite unocc_from_cons in H1, H2. destruct b; [eapply IH; eassumption|].
    destruct r2 as [|r2]; [lia|]. simpl in H2.
    destruct r1 as [|r1].
    + injection H1 as <-.
      assert (Hin : i2 ∈ unocc_from (S k) occ) by (eapply list_elem_of_lookup_2; exact H2).
      apply unocc_from_bounds in Hin. lia.
    + simpl in H1. eapply IH; [exact H1|exact H2|lia].
Qed.

(** Claim C3 (ranks are fixed at the start of a step).  A step on flags as
    long as the probability list returns normally, and the flag of every
    event [i] after the step is given by the flags the step started with:
    it is set when it was set before, or when the event fires at the rank
    [start_rank (occurred st) i], the number of events that were unoccurred
    to its left when the step started, with the draw of that number after
    the starting position.  Events that fire earlier in the step change
    neither this rank nor the penalty computed from it.  The snapshot lists
    exactly the events whose flag was unset, each at that rank, and in
    strictly increasing index order, which is the order of evaluation. *)
Theorem ranks_fixed_at_step_start (rand : stream) (effective : float64 -> float64 -> float64)
    (prob_list : list float64) (st : state) :
  length (occurred st) = length prob_list ->
  exists st',
    step rand effective prob_list st = Ok st' /\
    (forall i b, occurred st !! i = Some b ->
       occurred st' !! i
       = Some (b || fires rand effective prob_list (cursor st)
                      (start_rank (occurred st) i) i)) /\
    (forall r i, unoccurred_indices (occurred st) !! r = Some i ->
       occurred st !! i = Some false /\ start_rank (occurred st) i = r) /\
    (forall r1 r2 i1 i2,
       unoccurred_indices (occurred st) !! r1 = Some i1 ->
       unoccurred_indices (occurred st) !! r2 = Some i2 ->
       (r1 < r2)%nat -> (i1 < i2)%nat).
Proof.
  intros Hlen. destruct (step_spec rand effective prob_list st Hlen) as (st' & H1 & _ & _ & H4).
  exists st'. split; [exact H1|]. split; [exact H4|]. split.
  - intros r i. apply unoccurred_rank.
  - intros r1 r2 i1 i2. apply (unocc_from_increasing (occurred st) 0).
Qed.

(** Claim C4 (full-penalty cutoff).  In binary64 the test
    [0.1 * rank >= 1.0] succeeds exactly for the ranks from 10 on.  An
    attempt at such a rank returns the state unchanged: no flag is set and
    the generator does not move, whatever the base probability and the
    draws are.  In a step, every event of rank 10 or more is still
    unoccurred afterwards, and the step consumes one draw for each of the
    other unoccurred events, that is [min 10 k] draws when [k] events were
    unoccurred at its start. *)
Theorem full_penalty_cutoff (rand : stream) (effective : float64 -> float64 -> float64)
    (prob_list : list float64) (st : state) :
  length (occurred st) = length prob_list ->
  (forall rank, full_penalty rank = (10 <=? rank)%nat) /\
  (forall rank i st0, (10 <= rank)%nat ->
     attempt rand effective prob_list st0 rank i = Ok st0) /\
  exists st',
    step rand effective prob_list st = Ok st' /\
    (forall r i, unoccurred_indices (occurred st) !! r = Some i -> (10 <= r)%nat ->
       occurred st' !! i = Some false) /\
    cursor st'
    = (cursor st + Nat.min 10 (length (unoccurred_indices (occurred st))))%nat.
Proof.
  intros Hlen. split; [exact full_penalty_iff|]. split.
  - intros rank i st0 Hr. apply attempt_full_penalty. exact Hr.
  - destruct (step_spec rand effective prob_list st Hlen) as (st' & H1 & _ & H3 & H4).
    exists st'. split; [exact H1|]. split; [|exact H3].
    intros r i Hri Hr. apply unoccurred_rank in Hri as [Hi Hrank].
    rewrite (H4 i false Hi). unfold fires. rewrite Hrank.
    rewrite full_penalty_from_ten by exact Hr.
    destruct (prob_list !! i); reflexivity.
Qed.


(** ** Sorting *)

Lemma insert_sorted_perm (x : Z) (l : list Z) : Report.insert_sorted x l ≡ₚ x :: l.
Proof.
  induction l as [|y l IH]; [reflexivity|]. simpl. destruct (x <=? y); [reflexivity|].
  rewrite IH. apply Permutation_swap.
Qed.

Lemma sort_perm (l : list Z) : Report.sort l ≡ₚ l.
Proof.
  induction l as [|x l IH]; [reflexivity|].
  unfold Report.sort in *. simpl. rewrite insert_sorted_perm, IH. reflexivity.
Qed.

Lemma insert_sorted_sorted (x : Z) (l : list Z) :
  StronglySorted Z.le l -> StronglySorted Z.le (Report.insert_sorted x l).
Proof.
  induction l as [|y l IH]; intros Hs; simpl.
  - repeat constructor.
  - destruct (Z.leb_spec x y) as [Hxy|Hxy].
    + constructor; [exact Hs|]. apply StronglySorted_inv in Hs as [_ Hy].
      constructor; [exact Hxy|]. eapply Forall_impl; [exact Hy|]. intros z Hz. simpl in Hz. lia.
    + apply StronglySorted_inv in Hs as [Hs Hy]. constructor; [apply IH; exact Hs|].
      rewrite insert_sorted_perm. constructor; [lia|exact Hy].
Qed.

Lemma sort_sorted (l : list Z) : StronglySorted Z.le (Report.sort l).
Proof.
  induction l as [|x l IH]; [constructor|]. apply insert_sorted_sorted. exact IH.
Qed.

Lemma sorted_neighbours (s : list Z) :
  StronglySorted Z.le s ->
  forall i x y, s !! i = Some x -> s !! S i = Some y -> x <= y.
Proof.
  induction 1 as [|a s Hs IH Ha]; intros i x y Hx Hy; [discriminate|].
  destruct i as [|i].
  - injection Hx as <-. simpl in Hy. rewrite Forall_forall in Ha. apply Ha.
    eapply list_elem_of_lookup_2. exact Hy.
  - eapply IH; [exact Hx|exact Hy].
Qed.



(** ** Examples *)

(** Day counts and the weeks stored for them. *)
Example weeks_of_days :
  map Daily.weeks [0; 1; 7; 8; 14; 15; 7000] = map Ok [0; 1; 1; 2; 2; 3; 1000].
Proof. vm_compute. reflexivity. Qed.

(** Three trials of two events of weekly probability 0.21: the first fires
    its events in weeks 1 and 3, the other two reach the horizon of 5. *)
Example weekly_run_example :
  Weekly.run_biased_timer_simulation
    (list_stream [lit_0_001; lit_0_5; lit_0_5; lit_0_001] lit_0_5) 0
    [lit_0_21; lit_0_21] 3 5 = Ok ([3; 5; 5], 24%nat).
Proof. vm_compute. reflexivity. Qed.

(** The first event fires; the second is still tried at rank 1, where the
    draw 0.2 fails, although it would have passed at rank 0. *)
Example snapshot_is_not_live :
  step (list_stream [lit_0_001; lit_0_2] lit_0_5) Weekly.effective_p [lit_0_21; lit_0_21]
       {| occurred := [false; false]; cursor := 0 |}
  = Ok {| occurred := [true; false]; cursor := 2 |} /\
  flt lit_0_2 (Weekly.effective_p lit_0_21 (penalty_fraction 1)) = false /\
  flt lit_0_2 (Weekly.effective_p lit_0_21 (penalty_fraction 0)) = true.
Proof. vm_compute. auto. Qed.

(** Eleven events and draws that always pass: ten fire, the eleventh is
    not tried. *)
Example eleventh_event_skipped :
  step (const_stream lit_0_001) Weekly.effective_p (replicate 11 lit_0_21)
       {| occurred := replicate 11 false; cursor := 0 |}
  = Ok {| occurred := replicate 10 true ++ [false]; cursor := 10 |}.
Proof. vm_compute. reflexivity. Qed.

(** Instances of the theorems above on concrete runs. *)



Lemma ranks_fixed_at_step_start_witness :
  length [false; false] = length [lit_0_21; lit_0_21] /\
  exists st',
    step (list_stream [lit_0_001; lit_0_2] lit_0_5) Weekly.effective_p [lit_0_21; lit_0_21]
         {| occurred := [false; false]; cursor := 0 |} = Ok st' /\
    (forall i b, [false; false] !! i = Some b ->
       occurred st' !! i
       = Some (b || fires (list_stream [lit_0_001; lit_0_2] lit_0_5) Weekly.effective_p
                      [lit_0_21; lit_0_21] 0 (start_rank [false; false] i) i)).
Proof.
  split; [reflexivity|].
  destruct (ranks_fixed_at_step_start (list_stream [lit_0_001; lit_0_2] lit_0_5)
              Weekly.effective_p [lit_0_21; lit_0_21]
              {| occurred := [false; false]; cursor := 0 |} eq_refl)
    as (st' & H1 & H2 & _).
  exists st'. split; [exact H1|exact H2].
Defined.

Lemma full_penalty_cutoff_witness :
  length (replicate 11 false) = length (replicate 11 lit_0_21) /\
  exists st',
    step (const_stream lit_0_001) Weekly.effective_p (replicate 11 lit_0_21)
         {| occurred := replicate 11 false; cursor := 0 |} = Ok st' /\
    occurred st' !! 10%nat = Some false /\ cursor st' = 10%nat.
Proof.
  split; [reflexivity|].
  destruct (full_penalty_cutoff (const_stream lit_0_001) Weekly.effective_p
              (replicate 11 lit_0_21) {| occurred := replicate 11 false; cursor := 0 |}
              eq_refl) as (_ & _ & st' & H1 & H2 & H3).
  exists st'. split; [exact H1|]. split; [|exact H3].
  apply (H2 10%nat 10%nat); [reflexivity|lia].
Defined.

Lemma batch_in_submission_order_witness :
  0 <= 3 /\
  exists all_T,
    Weekly.run_biased_timer_simulation
      (list_stream [lit_0_001; lit_0_5; lit_0_5; lit_0_001] lit_0_5) 0
      [lit_0_21; lit_0_21] 3 5
    = Ok (all_T, cursor_after (list_stream [lit_0_001; lit_0_5; lit_0_5; lit_0_001] lit_0_5)
                   Weekly.effective_p [lit_0_21; lit_0_21] 5 0 3) /\
    length all_T = 3%nat.
Proof.
  split; [lia|].
  destruct (batch_in_submission_order
              (list_stream [lit_0_001; lit_0_5; lit_0_5; lit_0_001] lit_0_5) 0
              [lit_0_21; lit_0_21] 3 5) as (all_T & H1 & H2 & _); [lia|].
  exists all_T. split; [exact H1|exact H2].
Defined.





(** * Further properties of the code

    ** Reasoning on the loop of a trial *)

(** A rule for the [while] loop: [I] holds whenever the loop test is
    evaluated, [Q] when the loop is left (by the test, by the empty
    snapshot, or by [all(occurred)]). *)
Lemma while_loop_rule (rand : stream) (effective : float64 -> float64 -> float64)
      (prob_list : list float64) (limit : Z) (I Q : Z -> state -> Prop) :
  (forall week st, limit <= week -> I week st -> Q week st) ->
  (forall week st, week < limit -> unoccurred_indices (occurred st) = [] ->
                   I week st -> Q (week + 1) st) ->
  (forall week st st', week < limit -> length (occurred st) = length prob_list ->
                       unoccurred_indices (occurred st) <> [] ->
                       step rand effective prob_list st = Ok st' -> I week st ->
                       if all (occurred st') then Q (week + 1) st' else I (week + 1) st') ->
  forall (fuel : nat) (week : Z) (st : state) (w : Z) (st' : state),
  length (occurred st) = length prob_list ->
  while_loop rand effective prob_list fuel limit week st = Ok (w, st') ->
  I week st -> Q w st'.
Proof.
  intros Hexit Hempty Hstep. induction fuel as [|fuel IH]; intros week st w st' Hlen H HI;
    rewrite while_loop_unfold in H; destruct (Z.ltb_spec week limit) as [Hlt|Hge];
    try discriminate H.
  - injection H as <- <-. apply Hexit; assumption.
  - destruct (unoccurred_indices (occurred st)) as [|i0 rest] eqn:Hun.
    + injection H as <- <-. apply Hempty; assumption.
    + destruct (step_spec rand effective prob_list st Hlen) as (st1 & H1 & H2 & _).
      rewrite H1, bind_Ok in H.
      assert (Hs := Hstep week st st1 Hlt Hlen).
      rewrite Hun in Hs. specialize (Hs ltac:(discriminate) H1 HI).
      destruct (all (occurred st1)).
      * injection H as <- <-. exact Hs.
      * eapply IH; eassumption.
  - injection H as <- <-. apply Hexit; assumption.
Qed.

(** What a step does to one flag, and which flags it can set. *)
Lemma step_keeps_true (rand : stream) (effective : float64 -> float64 -> float64)
      (prob_list : list float64) (st st' : state) (i : nat) :
  length (occurred st) = length prob_list ->
  step rand effective prob_list st = Ok st' ->
  occurred st !! i = Some true -> occurred st' !! i = Some true.
Proof.
  intros Hlen H Hi.
  destruct (step_spec rand effective prob_list st Hlen) as (st1 & H1 & _ & _ & H4).
  rewrite H in H1. injection H1 as <-. rewrite (H4 i true Hi). reflexivity.
Qed.



(** Property X1 (an event that has occurred stays occurred).  From any
    state of the trial loop, when the loop returns: the list of flags keeps
    its length, the step counter has not decreased, every flag that was set
    is still set, and no more events are unoccurred than before. *)
Theorem occurred_stays_occurred (rand : stream) (effective : float64 -> float64 -> float64)
    (prob_list : list float64) (fuel : nat) (limit week : Z) (st : state)
    (w : Z) (st' : state) :
  length (occurred st) = length prob_list ->
  while_loop rand effective prob_list fuel limit week st = Ok (w, st') ->
  length (occurred st') = length prob_list /\
  week <= w /\
  (forall i, occurred st !! i = Some true -> occurred st' !! i = Some true) /\
  (length (unoccurred_indices (occurred st'))
   <= length (unoccurred_indices (occurred st)))%nat.
Proof.
  intros Hlen H.
  apply (while_loop_rule rand effective prob_list limit
           (fun wk s => length (occurred s) = length prob_list /\ week <= wk /\
                        (forall i, occurred st !! i = Some true ->
                                   occurred s !! i = Some true))
           (fun wk s => length (occurred s) = length prob_list /\ week <= wk /\
                        (forall i, occurred st !! i = Some true ->
                                   occurred s !! i = Some true))) in H.
  - destruct H as (H1 & H2 & H3). split; [exact H1|]. split; [exact H2|]. split; [exact H3|].
    apply submseteq_length, NoDup_submseteq; [apply (unocc_from_NoDup 0)|].
    intros i Hi. apply (unocc_from_elem 0) in Hi as [_ Hi]. rewrite Nat.sub_0_r in Hi.
    apply (unocc_from_elem 0). split; [lia|]. rewrite Nat.sub_0_r.
    destruct (occurred st !! i) as [[|]|] eqn:Hb.
    + rewrite (H3 i Hb) in Hi. discriminate Hi.
    + reflexivity.
    + apply lookup_lt_Some in Hi. apply lookup_ge_None_1 in Hb. lia.
  - intros wk s _ HI. exact HI.
  - intros wk s _ _ (H1 & H2 & H3). split; [exact H1|]. split; [lia|exact H3].
  - intros wk s s' _ Hl _ Hs (H1 & H2 & H3).
    assert (HQ : length (occurred s') = length prob_list /\ week <= wk + 1 /\
                 (forall i, occurred st !! i = Some true -> occurred s' !! i = Some true)).
    { destruct (step_spec rand effective prob_list s Hl) as (s1 & E1 & E2 & _).
      rewrite Hs in E1. injection E1 as <-.
      split; [exact E2|]. split; [lia|]. intros i Hi.
      eapply step_keeps_true; [exact Hl|exact Hs|]. apply H3. exact Hi. }
    destruct (all (occurred s')); exact HQ.
  - exact Hlen.
  - split; [exact Hlen|]. split; [lia|]. auto.
Qed.

Lemma trial_unfold (rand : stream) (effective : float64 -> float64 -> float64)
      (prob_list : list float64) (limit : Z) (c : nat) :
  trial rand effective prob_list limit c
  = while_loop rand effective prob_list (Z.to_nat limit) limit 0
      {| occurred := replicate (length prob_list) false; cursor := c |}.
Proof. reflexivity. Qed.









(** ** Runs whose trials all store the same value *)

Lemma batch_constant (rand : stream) (effective : float64 -> float64 -> float64)
      (prob_list : list float64) (report : Z -> result Z) (limit num_samples : Z)
      (c : nat) (v : Z) :
  0 <= num_samples ->
  (forall c' w st, trial rand effective prob_list limit c' = Ok (w, st) -> report w = Ok v) ->
  batch rand effective prob_list report limit num_samples c
  = Ok (replicate (Z.to_nat num_samples) v,
        cursor_after rand effective prob_list limit c (Z.to_nat num_samples)).
Proof.
  intros Hn Hv.
  destruct (batch_spec rand effective prob_list report limit num_samples c Hn)
    as (all_T & B1 & B2 & B3).
  { intros c' w st H. exists v. eapply Hv. exact H. }
  rewrite B1. do 2 f_equal.
  apply list_eq. intros j. destruct (le_lt_dec (Z.to_nat num_samples) j) as [Hj|Hj].
  - rewrite !lookup_ge_None_2; [reflexivity|rewrite length_replicate; lia|lia].
  - destruct (B3 j Hj) as (w & st & v' & T1 & T2 & T3).
    rewrite (Hv _ _ _ T1) in T2. injection T2 as <-.
    rewrite T3. symmetry. apply lookup_replicate_2. exact Hj.
Qed.

Lemma trial_no_horizon (rand : stream) (effective : float64 -> float64 -> float64)
      (prob_list : list float64) (limit : Z) (c : nat) :
  limit <= 0 ->
  trial rand effective prob_list limit c
  = Ok (0, {| occurred := replicate (length prob_list) false; cursor := c |}).
Proof.
  intros Hl. rewrite trial_unfold, while_loop_unfold.
  destruct (Z.ltb_spec 0 limit); [lia|reflexivity].
Qed.

Lemma cursor_after_no_horizon (rand : stream) (effective : float64 -> float64 -> float64)
      (prob_list : list float64) (limit : Z) (c : nat) (k : nat) :
  limit <= 0 -> cursor_after rand effective prob_list limit c k = c.
Proof.
  intros Hl. induction k as [|k IH]; [reflexivity|].
  cbn [cursor_after]. rewrite trial_no_horizon by exact Hl. exact IH.
Qed.

(** Property X5 (a horizon of zero or less).  With [max_weeks <= 0] the
    loop of a trial is never entered: the run records 0 for every trial and
    calls the generator not once, in the weekly files and in the daily
    file. *)
Theorem no_horizon_no_step (fpow : float64 -> float64 -> float64) (rand : stream) (c : nat)
    (prob_list : list float64) (num_samples max_weeks : Z) :
  max_weeks <= 0 -> 0 <= num_samples ->
  Weekly.run_biased_timer_simulation rand c prob_list num_samples max_weeks
    = Ok (replicate (Z.to_nat num_samples) 0, c) /\
  Daily.run_biased_timer_simulation fpow rand c prob_list num_samples max_weeks
    = Ok (replicate (Z.to_nat num_samples) 0, c).
Proof.
  intros Hw Hn. split.
  - unfold Weekly.run_biased_timer_simulation.
    rewrite (batch_constant _ _ _ _ _ _ _ 0 Hn).
    + rewrite cursor_after_no_horizon by exact Hw. reflexivity.
    + intros c' w st H. rewrite trial_no_horizon in H by exact Hw. injection H as <- _.
      reflexivity.
  - unfold Daily.run_biased_timer_simulation.
    assert (Hd : Daily.max_days max_weeks <= 0) by (unfold Daily.max_days; lia).
    rewrite (batch_constant _ _ _ _ _ _ _ 0 Hn).
    + rewrite cursor_after_no_horizon by exact Hd. reflexivity.
    + intros c' w st H. rewrite trial_no_horizon in H by exact Hd. injection H as <- _.
      reflexivity.
Qed.

(** ** Binary64: signs of products, and products by one *)






(** ** Events that cannot occur *)





(** ** Binary64: the product by [1.0] *)

Lemma shr_1_twice (k : Z) :
  0 <= k ->
  shr_1 (Build_shr_record (2 * k) false false) = Build_shr_record k false false.
Proof. intros Hk. destruct k as [|p|p]; [reflexivity|reflexivity|lia]. Qed.

(** Shifting out zeros loses nothing. *)
Lemma iter_shr_1_exact (n : positive) :
  forall k : Z, 0 <= k ->
  SpecFloat.iter_pos shr_1 n (Build_shr_record (2 ^ Z.pos n * k) false false)
  = Build_shr_record k false false.
Proof.
  induction n as [n IH | n IH |]; intros k Hk; cbn [SpecFloat.iter_pos].
  - assert (Hp : 0 < 2 ^ Z.pos n) by (apply Z.pow_pos_nonneg; lia).
    replace (2 ^ Z.pos n~1 * k) with (2 * (2 ^ Z.pos n * (2 ^ Z.pos n * k))).
    + rewrite shr_1_twice by nia. rewrite IH by nia. apply IH. exact Hk.
    + replace (Z.pos n~1) with (Z.pos n + Z.pos n + 1) by lia.
      rewrite !Z.pow_add_r by lia. change (2 ^ 1) with 2. ring.
  - assert (Hp : 0 < 2 ^ Z.pos n) by (apply Z.pow_pos_nonneg; lia).
    replace (2 ^ Z.pos n~0 * k) with (2 ^ Z.pos n * (2 ^ Z.pos n * k)).
    + rewrite IH by nia. apply IH. exact Hk.
    + replace (Z.pos n~0) with (Z.pos n + Z.pos n) by lia.
      rewrite Z.pow_add_r by lia. ring.
  - change (2 ^ 1) with 2. apply shr_1_twice. exact Hk.
Qed.

(** [x * 1.0] is [x], bit for bit, for every float. *)
Lemma fmul_one (x : float64) :
  SpecFloat.valid_binary prec emax x = true -> fmul x lit_1_0 = x.
Proof.
  intros Hv. destruct x as [s|s| |s m e]; try reflexivity.
  - destruct s; reflexivity.
  - destruct s; reflexivity.
  - cbn [SpecFloat.valid_binary] in Hv. unfold bounded, canonical_mantissa in Hv.
    apply andb_true_iff in Hv as [Hc Hb]. apply Z.eqb_eq in Hc. apply Z.leb_le in Hb.
    unfold fmul, lit_1_0, SFmul. rewrite xorb_false_r.
    pose proof (digits2_pos_bounds m) as [Mlo Mhi].
    set (d := Z.pos (digits2_pos m)) in *.
    assert (HP : Z.pos (m * 4503599627370496) = 2 ^ 52 * Z.pos m)
      by (rewrite Pos2Z.inj_mul; change (2 ^ 52) with 4503599627370496; lia).
    assert (HdP : Z.pos (digits2_pos (m * 4503599627370496)) = d + 52).
    { apply digits2_pos_unique. rewrite HP. split.
      - replace (d + 52 - 1) with (52 + (d - 1)) by lia.
        rewrite Z.pow_add_r by lia. apply Z.mul_le_mono_nonneg_l; [lia|exact Mlo].
      - replace (d + 52) with (52 + d) by lia.
        rewrite Z.pow_add_r by lia. apply Z.mul_lt_mono_pos_l; [lia|exact Mhi]. }
    unfold binary_round_aux.
    assert (H1 : shr_fexp prec emax (Z.pos (m * 4503599627370496)) (e + -52) loc_Exact
                 = (Build_shr_record (Z.pos m) false false, e)).
    { unfold shr_fexp. cbn [Zdigits2]. rewrite HdP.
      replace (d + 52 + (e + -52)) with (d + e) by lia. rewrite Hc.
      replace (e - (e + -52)) with 52 by lia.
      unfold shr. cbn [shr_record_of_loc]. rewrite HP.
      rewrite (iter_shr_1_exact 52 (Z.pos m)) by lia. f_equal. lia. }
    rewrite H1. cbn [shr_m loc_of_shr_record round_nearest_even].
    assert (H2 : shr_fexp prec emax (Z.pos m) e loc_Exact
                 = (Build_shr_record (Z.pos m) false false, e)).
    { unfold shr_fexp. cbn [Zdigits2]. fold d. rewrite Hc, Z.sub_diag. reflexivity. }
    rewrite H2. cbn [shr_m].
    replace (e <=? emax - prec) with true by (symmetry; apply Z.leb_le; exact Hb).
    reflexivity.
Qed.

Lemma no_penalty_factor :
  fsub lit_1_0 (penalty_fraction 0) = lit_1_0 /\
  fsub (float_of_int 1) (penalty_fraction 0) = lit_1_0.
Proof. split; vm_compute; reflexivity. Qed.


(** ** The percentiles of a collection *)

Lemma sorted_lookup_le (s : list Z) :
  StronglySorted Z.le s ->
  forall i j x y, (i <= j)%nat -> s !! i = Some x -> s !! j = Some y -> x <= y.
Proof.
  induction 1 as [|a s Hs IH Ha]; intros i j x y Hij Hx Hy; [discriminate|].
  destruct i as [|i], j as [|j]; try lia.
  - injection Hx as <-. injection Hy as <-. lia.
  - injection Hx as <-. simpl in Hy. rewrite Forall_forall in Ha. apply Ha.
    eapply list_elem_of_lookup_2. exact Hy.
  - simpl in Hx, Hy. eapply (IH i j); [lia|exact Hx|exact Hy].
Qed.

(** The interpolated percentile, a hundred times: the numerator of the
    value [np_percentile] returns over the denominator 100. *)
Lemma np_percentile_spec (a : list Z) (q : Z) :
  a <> [] -> 0 <= q <= 100 ->
  let s := Report.sort a in
  let pos := (Z.of_nat (length s) - 1) * q in
  exists (i : nat) (lo hi : Z) (v : Q),
    i = Z.to_nat (pos / 100) /\ (i < length s)%nat /\
    s !! i = Some lo /\ hi = default lo (s !! S i) /\ lo <= hi /\
    Report.np_percentile a q = Some v /\
    Qnum v = lo * 100 + (hi - lo) * (pos mod 100) /\ Qden v = 100%positive.
Proof.
  intros Hne Hq s pos.
  pose proof (sort_perm a) as Hp. pose proof (sort_sorted a) as Hs. fold s in Hp, Hs.
  assert (Hn : (0 < length s)%nat).
  { rewrite (Permutation_length Hp). destruct a; [congruence|simpl; lia]. }
  assert (Hi : (Z.to_nat (pos / 100) < length s)%nat).
  { assert (0 <= pos / 100 <= Z.of_nat (length s) - 1); [|lia].
    unfold pos. split; [apply Z.div_pos; nia|].
    apply Z.div_le_upper_bound; nia. }
  destruct (lookup_lt_is_Some_2 s _ Hi) as [lo Hlo].
  exists (Z.to_nat (pos / 100)), lo, (default lo (s !! S (Z.to_nat (pos / 100)))).
  eexists. split; [reflexivity|]. split; [exact Hi|]. split; [exact Hlo|].
  split; [reflexivity|]. split.
  - destruct (s !! S (Z.to_nat (pos / 100))) as [y|] eqn:Hy; simpl; [|lia].
    eapply sorted_neighbours; eassumption.
  - unfold Report.np_percentile. fold s. fold pos. rewrite Hlo.
    split; [reflexivity|]. split; [|reflexivity].
    cbn. change (Z.pos (1 * 100)) with 100. rewrite Z.mul_1_r. reflexivity.
Qed.

(** The reported statistic of a collection of non-negative values, as a
    quotient of integers. *)
Lemma week_percentile_spec (a : list Z) (q : Z) :
  a <> [] -> 0 <= q <= 100 -> Forall (fun t => 0 <= t) a ->
  let s := Report.sort a in
  let pos := (Z.of_nat (length s) - 1) * q in
  exists (i : nat) (lo hi : Z),
    i = Z.to_nat (pos / 100) /\ (i < length s)%nat /\
    s !! i = Some lo /\ hi = default lo (s !! S i) /\ 0 <= lo <= hi /\
    Report.week_percentile a q = Ok ((lo * 100 + (hi - lo) * (pos mod 100)) / 100).
Proof.
  intros Hne Hq Hpos s pos.
  destruct (np_percentile_spec a q Hne Hq)
    as (i & lo & hi & v & H1 & H2 & H3 & H4 & H5 & H6 & H7 & H8).
  fold s in H1, H2, H3, H4, H7. fold pos in H1, H7.
  assert (Hlo : 0 <= lo).
  { assert (Hs : Forall (fun t => 0 <= t) s) by (unfold s; rewrite sort_perm; exact Hpos).
    rewrite Forall_lookup in Hs. eapply Hs. exact H3. }
  exists i, lo, hi. split; [exact H1|]. split; [exact H2|]. split; [exact H3|].
  split; [exact H4|]. split; [lia|].
  unfold Report.week_percentile. rewrite H6. unfold Report.py_int. rewrite H7, H8.
  pose proof (Z.mod_pos_bound pos 100).
  rewrite Z.quot_div_nonneg by nia. reflexivity.
Qed.

(** The statistic lies between the least and the greatest value. *)
Lemma week_percentile_bounds (a : list Z) (q L H : Z) :
  a <> [] -> 0 <= q <= 100 -> 0 <= L ->
  Forall (fun t => L <= t <= H) a ->
  exists w, Report.week_percentile a q = Ok w /\ L <= w <= H.
Proof.
  intros Hne Hq HL Hall.
  assert (Hpos : Forall (fun t => 0 <= t) a).
  { eapply Forall_impl; [exact Hall|]. intros t Ht. simpl in Ht. lia. }
  destruct (week_percentile_spec a q Hne Hq Hpos) as (i & lo & hi & _ & Hi & Hlo & Hhi & Hle & Hw).
  eexists. split; [exact Hw|].
  assert (Hs : Forall (fun t => L <= t <= H) (Report.sort a)) by (rewrite sort_perm; exact Hall).
  rewrite Forall_lookup in Hs.
  assert (Blo : L <= lo <= H) by (eapply Hs; exact Hlo).
  assert (Bhi : L <= hi <= H).
  { rewrite Hhi. destruct (Report.sort a !! S i) as [y|] eqn:Hy; simpl; [|exact Blo].
    eapply Hs. exact Hy. }
  pose proof (Z.mod_pos_bound ((Z.of_nat (length (Report.sort a)) - 1) * q) 100) as Hr.
  set (r := ((Z.of_nat (length (Report.sort a)) - 1) * q) mod 100) in *.
  split.
  - apply Z.div_le_lower_bound; [lia|]. nia.
  - apply Z.div_le_upper_bound; [lia|]. nia.
Qed.

(** The statistic grows with [q]. *)
Lemma week_percentile_mono (a : list Z) (q1 q2 : Z) :
  a <> [] -> 0 <= q1 <= q2 -> q2 <= 100 -> Forall (fun t => 0 <= t) a ->
  exists w1 w2,
    Report.week_percentile a q1 = Ok w1 /\ Report.week_percentile a q2 = Ok w2 /\
    w1 <= w2.
Proof.
  intros Hne Hq1 Hq2 Hpos.
  destruct (week_percentile_spec a q1 Hne ltac:(lia) Hpos)
    as (i1 & lo1 & hi1 & Hi1 & Hb1 & Hlo1 & Hhi1 & Hle1 & Hw1).
  destruct (week_percentile_spec a q2 Hne ltac:(lia) Hpos)
    as (i2 & lo2 & hi2 & Hi2 & Hb2 & Hlo2 & Hhi2 & Hle2 & Hw2).
  eexists _, _. split; [exact Hw1|]. split; [exact Hw2|].
  pose proof (sort_sorted a) as Hs.
  set (s := Report.sort a) in *. set (n := Z.of_nat (length s)) in *.
  assert (Hn : 1 <= n) by (unfold n; lia).
  pose proof (Z.div_mod ((n - 1) * q1) 100 ltac:(lia)) as D1.
  pose proof (Z.div_mod ((n - 1) * q2) 100 ltac:(lia)) as D2.
  pose proof (Z.mod_pos_bound ((n - 1) * q1) 100 ltac:(lia)) as R1.
  pose proof (Z.mod_pos_bound ((n - 1) * q2) 100 ltac:(lia)) as R2.
  assert (Hpp : (n - 1) * q1 <= (n - 1) * q2) by nia.
  assert (Hdd : (n - 1) * q1 / 100 <= (n - 1) * q2 / 100) by (apply Z.div_le_mono; lia).
  assert (P1 : 0 <= (n - 1) * q1 / 100) by (apply Z.div_pos; nia).
  set (r1 := ((n - 1) * q1) mod 100) in *. set (r2 := ((n - 1) * q2) mod 100) in *.
  apply Z.div_le_mono; [lia|].
  destruct (Z.eq_dec ((n - 1) * q1 / 100) ((n - 1) * q2 / 100)) as [He|Hne'].
  - assert (i1 = i2) by (rewrite Hi1, Hi2, He; reflexivity). subst i2.
    assert (lo2 = lo1) by congruence. assert (hi2 = hi1) by congruence. subst lo2 hi2.
    assert (r1 <= r2) by lia. nia.
  - assert (Hlt : (i1 < i2)%nat) by (rewrite Hi1, Hi2; lia).
    destruct (lookup_lt_is_Some_2 s (S i1) ltac:(lia)) as [y Hy].
    assert (hi1 = y) by (rewrite Hhi1, Hy; reflexivity). subst y.
    assert (hi1 <= lo2) by (eapply (sorted_lookup_le s Hs (S i1) i2); [lia|exact Hy|exact Hlo2]).
    nia.
Qed.

Lemma summary_ordered_within (a : list Z) (L H : Z) :
  a <> [] -> 0 <= L -> Forall (fun t => L <= t <= H) a ->
  exists w25 w50 w75,
    Report.summary a = Ok (w25, w50, w75) /\ L <= w25 /\ w25 <= w50 <= w75 /\ w75 <= H.
Proof.
  intros Hne HL Hall.
  assert (Hpos : Forall (fun t => 0 <= t) a).
  { eapply Forall_impl; [exact Hall|]. intros t Ht. simpl in Ht. lia. }
  destruct (week_percentile_mono a 25 50 Hne ltac:(lia) ltac:(lia) Hpos)
    as (w25 & w50 & E25 & E50 & H12).
  destruct (week_percentile_mono a 50 75 Hne ltac:(lia) ltac:(lia) Hpos)
    as (w50' & w75 & E50' & E75 & H23).
  assert (w50' = w50) by congruence. subst w50'.
  destruct (week_percentile_bounds a 25 L H Hne ltac:(lia) HL Hall) as (x & Ex & Bx).
  destruct (week_percentile_bounds a 75 L H Hne ltac:(lia) HL Hall) as (y & Ey & By).
  assert (x = w25) by congruence. assert (y = w75) by congruence. subst x y.
  exists w25, w50, w75. unfold Report.summary.
  rewrite E25, bind_Ok, E50, bind_Ok, E75, bind_Ok. split; [reflexivity|]. lia.
Qed.

(** Property X8 (the three statistics are ordered and within the data).
    For a non-empty collection of values between [least >= 0] and
    [greatest], the three reported numbers exist and satisfy
    [least <= week_25 <= week_50 <= week_75 <= greatest]. *)
Theorem statistics_ordered_within_range (all_T : list Z) (least greatest : Z) :
  all_T <> [] -> 0 <= least ->
  Forall (fun t => least <= t <= greatest) all_T ->
  exists week_25 week_50 week_75,
    Report.summary all_T = Ok (week_25, week_50, week_75) /\
    least <= week_25 /\ week_25 <= week_50 /\ week_50 <= week_75 /\ week_75 <= greatest.
Proof.
  intros Hne HL Hall.
  destruct (summary_ordered_within all_T least greatest Hne HL Hall)
    as (w25 & w50 & w75 & E & H1 & [H2 H3] & H4).
  exists w25, w50, w75. auto.
Qed.

Lemma run_nonempty (all_T : list Z) (num_samples : Z) :
  1 <= num_samples -> length all_T = Z.to_nat num_samples -> all_T <> [].
Proof. intros Hn Hl ->. simpl in Hl. lia. Qed.


(** Property X10 (days are rounded up to weeks).  For every day count
    below 2^52, [math.ceil(day / 7)], computed in binary64, returns the
    number of weeks [w] with [7 * (w - 1) < day <= 7 * w]. *)
Theorem days_round_up_to_weeks (day : Z) :
  0 <= day < 2 ^ 52 ->
  exists weeks, Daily.weeks day = Ok weeks /\ 7 * (weeks - 1) < day <= 7 * weeks.
Proof.
  intros Hd. exists (ceil_div day 7). split; [apply weeks_is_ceiling; exact Hd|].
  apply ceil_div_spec.
Qed.

(** ** The histogram edges *)

Lemma fold_left_max_spec (l : list Z) :
  forall x : Z,
  x <= fold_left Z.max l x /\ Forall (fun t => t <= fold_left Z.max l x) l /\
  (fold_left Z.max l x = x \/ fold_left Z.max l x ∈ l).
Proof.
  induction l as [|y l IH]; intros x; cbn [fold_left].
  - split; [lia|]. split; [constructor|]. left. reflexivity.
  - destruct (IH (Z.max x y)) as (H1 & H2 & H3). split; [lia|]. split.
    + constructor; [lia|exact H2].
    + destruct H3 as [H3|H3].
      * rewrite H3. destruct (Z.max_spec x y) as [[_ ->]|[_ ->]]; [right; left|left; reflexivity].
      * right. right. exact H3.
Qed.

Lemma np_max_spec (a : list Z) :
  a <> [] ->
  exists m, Main.np_max a = Ok m /\ m ∈ a /\ Forall (fun t => t <= m) a.
Proof.
  intros Hne. destruct a as [|x l]; [congruence|].
  destruct (fold_left_max_spec l x) as (H1 & H2 & H3).
  exists (fold_left Z.max l x). split; [reflexivity|]. split.
  - destruct H3 as [->|H3]; [left|right; exact H3].
  - constructor; assumption.
Qed.

Lemma range_from_elem (start stop v : Z) :
  v ∈ Main.range_from start stop <-> start <= v < stop.
Proof.
  unfold Main.range_from. rewrite list_elem_of_fmap. split.
  - intros (k & -> & Hk). apply list_elem_of_In, in_seq in Hk. lia.
  - intros Hv. exists (Z.to_nat (v - start)). split; [lia|].
    apply list_elem_of_In, in_seq. lia.
Qed.

(** Property X11 (the histogram edges).  For an empty collection the
    computation of the edges raises [ValueError]; otherwise the edges are
    exactly the integers from 1 to the greatest value plus one, so every
    value [v >= 1] of the collection has both [v] and [v + 1] among the
    edges: a unit bin of its own. *)
Theorem histogram_edges :
  Main.bins [] = Raise ValueError /\
  forall all_T : list Z,
    all_T <> [] ->
    exists greatest edges,
      Main.bins all_T = Ok edges /\
      greatest ∈ all_T /\ Forall (fun t => t <= greatest) all_T /\
      (forall v, v ∈ edges <-> 1 <= v <= greatest + 1) /\
      (forall v, v ∈ all_T -> 1 <= v -> v ∈ edges /\ v + 1 ∈ edges).
Proof.
  split; [reflexivity|]. intros all_T Hne.
  destruct (np_max_spec all_T Hne) as (m & Hm & Hin & Hle).
  exists m, (Main.range_from 1 (m + 2)). unfold Main.bins. rewrite Hm, bind_Ok.
  split; [reflexivity|]. split; [exact Hin|]. split; [exact Hle|]. split.
  - intros v. rewrite range_from_elem. lia.
  - intros v Hv H1. rewrite Forall_forall in Hle. specialize (Hle v Hv).
    rewrite !range_from_elem. lia.
Qed.

(** Property X12 (the histogram of a run).  With no trial at all the
    edges cannot be computed: [main] ends with [ValueError].  With at least
    one trial and a horizon of at least one week, every completion value of
    the run has its unit bin, and no edge lies outside 1 .. [max_weeks + 1]. *)
Theorem histogram_of_a_run (rand : stream) (c : nat) (prob_list : list float64)
    (num_samples max_weeks : Z) :
  (num_samples = 0 ->
   Main.weekly_bins rand c prob_list num_samples max_weeks = Raise ValueError) /\
  (1 <= num_samples -> 1 <= max_weeks ->
   exists all_T c' edges,
     Weekly.run_biased_timer_simulation rand c prob_list num_samples max_weeks
       = Ok (all_T, c') /\
     Main.weekly_bins rand c prob_list num_samples max_weeks = Ok edges /\
     (forall v, v ∈ all_T -> v ∈ edges /\ v + 1 ∈ edges) /\
     (forall v, v ∈ edges -> 1 <= v <= max_weeks + 1)).
Proof.
  split.
  - intros ->. reflexivity.
  - intros Hn Hw.
    destruct (batch_Forall rand Weekly.effective_p prob_list (fun week => Ok week)
                (fun t => 1 <= t <= max_weeks) max_weeks num_samples c)
      as (all_T & c' & B1 & B2 & B3); [lia| |].
    { intros c' w st H. exists w. split; [reflexivity|].
      apply trial_facts in H as (H1 & _). lia. }
    destruct (np_max_spec all_T) as (m & Hm & Hin & Hle);
      [exact (run_nonempty all_T num_samples Hn B2)|].
    exists all_T, c', (Main.range_from 1 (m + 2)).
    split; [exact B1|]. unfold Main.weekly_bins, Weekly.run_biased_timer_simulation.
    rewrite B1, bind_Ok. cbn [fst]. unfold Main.bins. rewrite Hm, bind_Ok.
    split; [reflexivity|]. rewrite Forall_forall in B3, Hle. split.
    + intros v Hv. specialize (B3 v Hv). specialize (Hle v Hv).
      rewrite !range_from_elem. lia.
    + intros v Hv. apply range_from_elem in Hv. specialize (B3 m Hin). lia.
Qed.

(** ** The horizon only truncates *)

(** A loop that ends with all events occurred ends in the same way under
    any later limit and any sufficient budget. *)
Lemma while_loop_later_limit (rand : stream) (effective : float64 -> float64 -> float64)
      (prob_list : list float64) (fuel : nat) :
  forall (fuel' : nat) (limit limit' week w : Z) (st st' : state),
  length (occurred st) = length prob_list ->
  while_loop rand effective prob_list fuel limit week st = Ok (w, st') ->
  all (occurred st') = true -> week < limit -> limit <= limit' ->
  (Z.to_nat (limit' - week) <= fuel')%nat ->
  while_loop rand effective prob_list fuel' limit' week st = Ok (w, st').
Proof.
  induction fuel as [|fuel IH]; intros fuel' limit limit' week w st st' Hlen H Hall Hlt Hle Hf;
    rewrite while_loop_unfold in H; destruct (Z.ltb_spec week limit) as [_|Hge]; try lia;
    try discriminate H.
  rewrite while_loop_unfold. destruct (Z.ltb_spec week limit') as [_|Hge]; [|lia].
  destruct fuel' as [|fuel']; [lia|].
  destruct (unoccurred_indices (occurred st)) as [|i0 rest] eqn:Hun; [exact H|].
  destruct (step_spec rand effective prob_list st Hlen) as (st1 & H1 & H2 & _).
  rewrite H1, bind_Ok in H |- *.
  destruct (all (occurred st1)) eqn:Hall1; [exact H|].
  destruct (Z.lt_ge_cases (week + 1) limit) as [Hl|Hg].
  - apply (IH fuel' limit limit' (week + 1) w st1 st' H2 H Hall Hl Hle). lia.
  - rewrite while_loop_unfold in H. destruct (Z.ltb_spec (week + 1) limit); [lia|].
    injection H as <- <-. congruence.
Qed.

(** Property X13 (the horizon only truncates).  A trial that ended with
    all its events occurred ends in exactly the same way, same counter, same
    flags and same number of draws, under any longer horizon. *)
Theorem completed_trial_ignores_horizon (fpow : float64 -> float64 -> float64)
    (rand : stream) (c : nat) (prob_list : list float64) (max_weeks later : Z) :
  1 <= max_weeks -> max_weeks <= later ->
  (forall week st,
     Weekly.trial rand prob_list max_weeks c = Ok (week, st) ->
     all (occurred st) = true ->
     Weekly.trial rand prob_list later c = Ok (week, st)) /\
  (forall day st,
     Daily.trial fpow rand prob_list max_weeks c = Ok (day, st) ->
     all (occurred st) = true ->
     Daily.trial fpow rand prob_list later c = Ok (day, st)).
Proof.
  intros Hw Hl.
  assert (G : forall effective limit limit' w st,
             1 <= limit -> limit <= limit' ->
             trial rand effective prob_list limit c = Ok (w, st) ->
             all (occurred st) = true ->
             trial rand effective prob_list limit' c = Ok (w, st)).
  { intros effective limit limit' w st H1 H2 H Hall. rewrite trial_unfold in *.
    eapply while_loop_later_limit; try eassumption.
    - simpl. apply length_replicate.
    - lia.
    - lia. }
  split.
  - intros week st. apply G; assumption.
  - intros day st. apply G; unfold Daily.max_days; lia.
Qed.

(** ** A single event *)

Lemma one_event_step (rand : stream) (effective : float64 -> float64 -> float64)
      (p : float64) (c : nat) :
  step rand effective [p] {| occurred := [false]; cursor := c |}
  = Ok {| occurred := [flt (rand c) (effective p (penalty_fraction 0))]; cursor := S c |}.
Proof.
  destruct (step_spec rand effective [p] {| occurred := [false]; cursor := c |} eq_refl)
    as (st' & H1 & H2 & H3 & H4).
  rewrite H1. f_equal. destruct st' as [occ cur]. cbn [occurred cursor] in *.
  specialize (H4 0%nat false eq_refl).
  destruct occ as [|b [|b' occ]]; try discriminate H2.
  change (Some b = Some (fires rand effective [p] c 0 0)) in H4.
  injection H4 as ->. f_equal.
  - unfold fires. change ([p] !! 0%nat) with (Some p).
    rewrite full_penalty_below_ten by lia. rewrite Nat.add_0_r. reflexivity.
  - rewrite H3. change (length (unoccurred_indices [false])) with 1%nat. lia.
Qed.

(** With one event the loop waits for the first draw below the
    probability. *)
Lemma one_event_loop (rand : stream) (effective : float64 -> float64 -> float64)
      (p : float64) (limit : Z) (k : nat) :
  forall (fuel : nat) (week : Z) (c : nat),
  (forall j, (j < k)%nat -> flt (rand (c + j)%nat) (effective p (penalty_fraction 0)) = false) ->
  week + Z.of_nat k <= limit -> (Z.to_nat (limit - week) <= fuel)%nat ->
  (week + Z.of_nat k < limit ->
   flt (rand (c + k)%nat) (effective p (penalty_fraction 0)) = true ->
   while_loop rand effective [p] fuel limit week {| occurred := [false]; cursor := c |}
   = Ok (week + Z.of_nat k + 1, {| occurred := [true]; cursor := S (c + k) |})) /\
  (week + Z.of_nat k = limit ->
   while_loop rand effective [p] fuel limit week {| occurred := [false]; cursor := c |}
   = Ok (limit, {| occurred := [false]; cursor := (c + k)%nat |})).
Proof.
  induction k as [|k IH]; intros fuel week c Hfail Hk Hf.
  - split.
    + intros Hlt Hs. rewrite while_loop_unfold.
      destruct (Z.ltb_spec week limit); [|lia]. destruct fuel as [|fuel]; [lia|].
      cbn [occurred unoccurred_indices enumerate enumerate_from List.filter snd negb map fst].
      rewrite one_event_step, bind_Ok. cbn [occurred]. rewrite Nat.add_0_r in *. rewrite Hs.
      cbn. do 3 f_equal. lia.
    + intros He. rewrite while_loop_unfold.
      destruct (Z.ltb_spec week limit); [lia|]. rewrite Nat.add_0_r. do 2 f_equal. lia.
  - assert (H0 : flt (rand c) (effective p (penalty_fraction 0)) = false).
    { rewrite <- (Nat.add_0_r c). apply Hfail. lia. }
    assert (Hstep : while_loop rand effective [p] fuel limit week
                      {| occurred := [false]; cursor := c |}
                    = while_loop rand effective [p] (Nat.pred fuel) limit (week + 1)
                        {| occurred := [false]; cursor := S c |}).
    { rewrite while_loop_unfold.
      destruct (Z.ltb_spec week limit); [|lia]. destruct fuel as [|fuel]; [lia|].
      cbn [occurred unoccurred_indices enumerate enumerate_from List.filter snd negb map fst].
      rewrite one_event_step, bind_Ok. cbn [occurred]. rewrite H0. reflexivity. }
    rewrite Hstep.
    destruct (IH (Nat.pred fuel) (week + 1) (S c)) as [I1 I2].
    { intros j Hj. replace (S c + j)%nat with (c + S j)%nat by lia. apply Hfail. lia. }
    { lia. }
    { lia. }
    split.
    + intros Hlt Hs. rewrite I1.
      * do 2 f_equal; [lia|]. f_equal. lia.
      * lia.
      * replace (S c + k)%nat with (c + S k)%nat by lia. exact Hs.
    + intros He. rewrite I2 by lia. do 3 f_equal. lia.
Qed.

(** Property X14 (a single event).  With one event of base probability
    [p], the trial counts the draws up to the first one below [p]: if the
    first [k] draws are not below [p] and the next one is, within the
    horizon, the completion week is [k + 1]; if the horizon is reached
    first, it is the horizon, and the event is still unoccurred. *)
Theorem single_event_waits_for_first_success (rand : stream) (c : nat) (p : float64)
    (max_weeks : Z) (k : nat) :
  SpecFloat.valid_binary prec emax p = true ->
  (forall j, (j < k)%nat -> flt (rand (c + j)%nat) p = false) ->
  (Z.of_nat k < max_weeks -> flt (rand (c + k)%nat) p = true ->
   Weekly.trial rand [p] max_weeks c
   = Ok (Z.of_nat k + 1, {| occurred := [true]; cursor := S (c + k) |})) /\
  (Z.of_nat k = max_weeks ->
   Weekly.trial rand [p] max_weeks c
   = Ok (max_weeks, {| occurred := [false]; cursor := (c + k)%nat |})).
Proof.
  intros Hv Hfail.
  assert (E : Weekly.effective_p p (penalty_fraction 0) = p).
  { unfold Weekly.effective_p. destruct no_penalty_factor as [-> _]. apply fmul_one, Hv. }
  split.
  - intros Hk Hs.
    destruct (one_event_loop rand Weekly.effective_p p max_weeks k (Z.to_nat max_weeks) 0 c)
      as [I1 _]; [rewrite E; exact Hfail|lia|lia|].
    unfold Weekly.trial. rewrite trial_unfold. cbn [length replicate].
    rewrite I1; [reflexivity|lia|rewrite E; exact Hs].
  - intros Hk.
    destruct (one_event_loop rand Weekly.effective_p p max_weeks k (Z.to_nat max_weeks) 0 c)
      as [_ I2]; [rewrite E; exact Hfail|lia|lia|].
    unfold Weekly.trial. rewrite trial_unfold. cbn [length replicate].
    apply I2. lia.
Qed.

(** Instances of the further properties on concrete inputs. *)

Lemma occurred_stays_occurred_witness :
  length [true; false] = length [lit_0_21; lit_0_21] /\
  while_loop (list_stream [lit_0_5; lit_0_001] lit_0_5) Weekly.effective_p
    [lit_0_21; lit_0_21] 5 5 0 {| occurred := [true; false]; cursor := 0 |}
  = Ok (2, {| occurred := [true; true]; cursor := 2 |}) /\
  (forall i, [true; false] !! i = Some true -> [true; true] !! i = Some true).
Proof.
  assert (H1 : length [true; false] = length [lit_0_21; lit_0_21]) by reflexivity.
  assert (H2 : while_loop (list_stream [lit_0_5; lit_0_001] lit_0_5) Weekly.effective_p
                 [lit_0_21; lit_0_21] 5 5 0 {| occurred := [true; false]; cursor := 0 |}
               = Ok (2, {| occurred := [true; true]; cursor := 2 |}))
    by (vm_compute; reflexivity).
  split; [exact H1|]. split; [exact H2|].
  exact (proj1 (proj2 (proj2
           (occurred_stays_occurred _ _ _ _ _ _
              {| occurred := [true; false]; cursor := 0 |} _ _ H1 H2)))).
Defined.



Lemma no_horizon_no_step_witness :
  0 <= 0 /\ 0 <= 3 /\
  Weekly.run_biased_timer_simulation (const_stream lit_0_001) 4 [lit_0_21] 3 0
    = Ok ([0; 0; 0], 4%nat) /\
  Daily.run_biased_timer_simulation pow_stub (const_stream lit_0_001) 4 [lit_0_21] 3 0
    = Ok ([0; 0; 0], 4%nat).
Proof.
  split; [lia|]. split; [lia|].
  apply (no_horizon_no_step pow_stub (const_stream lit_0_001) 4 [lit_0_21] 3 0); lia.
Defined.

Lemma completed_trial_ignores_horizon_witness :
  1 <= 5 /\ 5 <= 9 /\
  (forall week st,
     Weekly.trial (const_stream lit_0_001) [lit_0_21] 5 0 = Ok (week, st) ->
     all (occurred st) = true ->
     Weekly.trial (const_stream lit_0_001) [lit_0_21] 9 0 = Ok (week, st)).
Proof.
  split; [lia|]. split; [lia|].
  apply (completed_trial_ignores_horizon pow_stub (const_stream lit_0_001) 0 [lit_0_21] 5 9);
    lia.
Defined.



Lemma single_event_waits_for_first_success_witness :
  SpecFloat.valid_binary prec emax lit_0_21 = true /\
  (forall j, (j < 1)%nat ->
     flt (list_stream [lit_0_5; lit_0_001] lit_0_5 (0 + j)%nat) lit_0_21 = false) /\
  Weekly.trial (list_stream [lit_0_5; lit_0_001] lit_0_5) [lit_0_21] 5 0
  = Ok (2, {| occurred := [true]; cursor := 2 |}).
Proof.
  assert (H1 : SpecFloat.valid_binary prec emax lit_0_21 = true) by reflexivity.
  assert (H2 : forall j, (j < 1)%nat ->
                 flt (list_stream [lit_0_5; lit_0_001] lit_0_5 (0 + j)%nat) lit_0_21 = false).
  { intros j Hj. destruct j as [|j]; [reflexivity|lia]. }
  split; [exact H1|]. split; [exact H2|].
  apply (proj1 (single_event_waits_for_first_success
                  (list_stream [lit_0_5; lit_0_001] lit_0_5) 0 lit_0_21 5 1 H1 H2));
    [lia|reflexivity].
Defined.

Lemma days_round_up_to_weeks_witness :
  0 <= 8 < 2 ^ 52 /\
  exists weeks, Daily.weeks 8 = Ok weeks /\ 7 * (weeks - 1) < 8 <= 7 * weeks.
Proof.
  assert (H : 0 <= 8 < 2 ^ 52) by (split; [lia|reflexivity]).
  split; [exact H|]. exact (days_round_up_to_weeks 8 H).
Defined.

Lemma statistics_ordered_within_range_witness :
  [3; 5; 5] <> [] /\ 0 <= 1 /\ Forall (fun t => 1 <= t <= 5) [3; 5; 5] /\
  exists week_25 week_50 week_75,
    Report.summary [3; 5; 5] = Ok (week_25, week_50, week_75) /\
    1 <= week_25 /\ week_25 <= week_50 /\ week_50 <= week_75 /\ week_75 <= 5.
Proof.
  assert (H1 : [3; 5; 5] <> ([] : list Z)) by discriminate.
  assert (H2 : 0 <= 1) by lia.
  assert (H3 : Forall (fun t => 1 <= t <= 5) [3; 5; 5]) by (repeat constructor; lia).
  split; [exact H1|]. split; [exact H2|]. split; [exact H3|].
  exact (statistics_ordered_within_range [3; 5; 5] 1 5 H1 H2 H3).
Defined.


(** The statistics of the run of [weekly_run_example], and its histogram
    edges. *)
Example weekly_statistics_example :
  Main.weekly_statistics (list_stream [lit_0_001; lit_0_5; lit_0_5; lit_0_001] lit_0_5) 0
    [lit_0_21; lit_0_21] 3 5 = Ok (4, 5, 5) /\
  Main.weekly_bins (list_stream [lit_0_001; lit_0_5; lit_0_5; lit_0_001] lit_0_5) 0
    [lit_0_21; lit_0_21] 3 5 = Ok [1; 2; 3; 4; 5; 6].
Proof. vm_compute. split; reflexivity. Qed.
